(** * The find-match request handler

    A shallow embedding of [supabase/functions/find-match/index.ts] together
    with the part of the database schema it runs against (tables [profiles]
    and [matches], their constraints and triggers).

    The handler is a sequence of storage round trips with early returns
    inside one [try]/[catch]; it is embedded in a small state-and-early-exit
    monad over the two tables.  Everything the handler obtains from outside
    (the identity service, the clocks, storage faults, the row the storage
    engine happens to return under [limit(1)], the generated match id) is a
    field of the environment [Env], so that statements quantify over it. *)

From Stdlib Require Import String Ascii ZArith.
From stdpp Require Import base option list gmap strings fin_maps pretty.

Local Open Scope string_scope.

(** ** Identities and their ordering *)

(** Identities are the text form of a UUID.  The handler compares them with
    the JavaScript [<] on strings (code unit by code unit); the storage
    engine compares the same values in the trigger.  On canonical lower-case
    UUID text both orders agree, and one order on strings stands for both. *)
Definition Id := string.

Definition id_lt (a b : Id) : bool := String.ltb a b.

(** ** Data model *)

Module Schema.

(** [status TEXT CHECK (status IN ('pending','matched','rejected','blocked'))] *)
Inductive MatchStatus := pending | matched | rejected | blocked.

(** A row of [public.profiles], keyed by its primary key [id] in the table.
    Only the columns the handler selects or writes are kept; [interests]
    is JSON carried through untouched. *)
Record Profile := mkProfile {
  name : string;
  bio : option string;
  age : option Z;
  location : option string;
  gender : option string;
  interests : string;
  is_active : bool;
  is_searching : bool;
  updated_at : string
}.

(** A row of [public.matches]; [match_score] is [DECIMAL(3,2)], held in
    hundredths.  The two [TIMESTAMPTZ] columns are held as the text in
    which the engine hands them back, which is not the text in which they
    were sent (see [Env] and [Storage.returned]). *)
Record Match := mkMatch {
  id : Id;
  profile1_id : Id;
  profile2_id : Id;
  status : MatchStatus;
  match_score : Z;
  created_at : string;
  m_updated_at : string
}.

Record DB := mkDB {
  profiles : gmap Id Profile;
  matches : list Match
}.

Definition set_is_searching (v : bool) (ts : string) (p : Profile) : Profile :=
  mkProfile (name p) (bio p) (age p) (location p) (gender p) (interests p)
            (is_active p) v ts.

(** Trigger [handle_profiles_updated_at]: [NEW.updated_at = NOW()]. *)
Definition handle_updated_at (now : string) (p : Profile) : Profile :=
  mkProfile (name p) (bio p) (age p) (location p) (gender p) (interests p)
            (is_active p) (is_searching p) now.

(** Trigger [ensure_mutual_match] on a row being inserted.  When
    [profile1_id > profile2_id] the function assigns both columns from
    [OLD], which an insert does not have: the row is left without its two
    [NOT NULL] columns and is rejected. *)
Definition create_mutual_match (new : Match) : option Match :=
  if id_lt (profile2_id new) (profile1_id new) then None else Some new.

End Schema.
Import Schema.

(** ** Requests, responses, thrown values *)

Record Request := mkRequest {
  method : string;
  authorization : option string
}.

(** The columns named in the candidate query's [select]. *)
Record PublicProfile := mkPublic {
  pp_id : Id;
  pp_name : string;
  pp_bio : option string;
  pp_age : option Z;
  pp_location : option string;
  pp_gender : option string;
  pp_interests : string
}.

Inductive Body :=
| BodyText (text : string)
| BodyError (error : string) (details : option string)
| BodySearching (message : string) (userId : Id)
| BodyMatched (message : string) (match_id : Id) (matchedUser : PublicProfile)
              (matchScore : Z) (createdAt : string).

Record Response := mkResponse {
  resp_status : Z;
  resp_headers : list (string * string);
  resp_body : Body
}.

(** What a [catch] clause can receive: an [Error] with its message, or any
    other value. *)
Inductive JsThrown :=
| ThrownError (message : string)
| ThrownOther.

(** The [error] member of a storage result. *)
Inductive PostgrestError :=
| TransportFault (message : string)
| NotNullViolation
| CheckViolation
| UniqueViolation
| ForeignKeyViolation.

(** The identity service's answer to [auth.getUser(token)]. *)
Inductive GetUserResult :=
| GetUserReturned (user : option Id) (error : option string)
| GetUserThrew (t : JsThrown).

(** Everything one invocation takes from its surroundings. *)
Record Env := mkEnv {
  getUser : string -> GetUserResult;
  type_error_message : string -> string;  (* the runtime's text for reading a
                                             property of null *)
  now_step1 : string;               (* new Date().toISOString(), step 1 *)
  db_now_step1 : string;            (* NOW() in the trigger, step 1 *)
  updateError : option PostgrestError;
  searchError : option PostgrestError;
  scan_offset : nat;                (* which matching row limit(1) yields *)
  now_created : string;             (* new Date().toISOString(), created_at *)
  now_updated : string;             (* new Date().toISOString(), updated_at *)
  timestamptz_out : string -> string;  (* the engine's text for a timestamp
                                          it was sent *)
  uuid_generate_v4 : Id;
  insert_fault : option PostgrestError;
  now_step6 : string;
  db_now_step6 : string;
  updateUsersError : option PostgrestError
}.

(** ** The handler monad: state, early [return], [throw] *)

Inductive Outcome (A : Type) : Type :=
| Continue (a : A)
| Respond (r : Response)
| Raise (t : JsThrown).
Arguments Continue {A} a.
Arguments Respond {A} r.
Arguments Raise {A} t.

Definition Handler (A : Type) : Type := DB -> DB * Outcome A.

Definition pure {A} (a : A) : Handler A := fun db => (db, Continue a).
Definition respond {A} (r : Response) : Handler A := fun db => (db, Respond r).
Definition raise {A} (t : JsThrown) : Handler A := fun db => (db, Raise t).

Definition bind {A B} (m : Handler A) (k : A -> Handler B) : Handler B :=
  fun db =>
    match m db with
    | (db', Continue a) => k a db'
    | (db', Respond r) => (db', Respond r)
    | (db', Raise t) => (db', Raise t)
    end.

Notation "'await' x ':=' m 'in' k" := (bind m (fun x => k))
  (at level 10, x name, m at level 100, k at level 200,
   format "'[v' 'await'  x  ':='  m  'in' '/' k ']'").

(** ** Storage operations *)

Module Storage.

(** [from('profiles').update(..).eq/in('id', ..)]: one statement, applied to
    every row whose key satisfies the filter, or not at all. *)
Definition update_profiles (fault : option PostgrestError) (db_now : string)
    (set : Profile -> Profile) (sel : Id -> bool)
  : Handler (option PostgrestError) :=
  fun db =>
    match fault with
    | Some e => (db, Continue (Some e))
    | None =>
        let upd (k : Id) (p : Profile) :=
          Some (if sel k then handle_updated_at db_now (set p) else p) in
        (mkDB (map_imap upd (profiles db)) (matches db), Continue None)
    end.

Definition to_public (kp : Id * Profile) : PublicProfile :=
  mkPublic kp.1 (name kp.2) (bio kp.2) (age kp.2) (location kp.2)
           (gender kp.2) (interests kp.2).

(** [.limit(1)] without an order: one of the rows that pass the filter,
    whichever the scan meets first. *)
Definition limit1 {A} (offset : nat) (rows : list A) : list A :=
  match rows with
  | [] => []
  | _ => take 1 (drop (offset mod length rows) rows)
  end.

(** [.eq('is_searching', true).eq('is_active', true).neq('id', userId)] *)
Definition candidate (userId : Id) (kp : Id * Profile) : Prop :=
  is_searching kp.2 = true ∧ is_active kp.2 = true ∧ kp.1 ≠ userId.

#[global] Instance candidate_dec userId kp : Decision (candidate userId kp).
Proof. unfold candidate. apply _. Defined.

Definition select_candidates (fault : option PostgrestError) (offset : nat)
    (userId : Id) : Handler (option (list PublicProfile) * option PostgrestError) :=
  fun db =>
    match fault with
    | Some e => (db, Continue (None, Some e))
    | None =>
        let rows := map_to_list (filter (candidate userId) (profiles db)) in
        (db, Continue (Some (to_public <$> limit1 offset rows), None))
    end.

Definition pair_taken (ms : list Match) (p1 p2 : Id) : bool :=
  existsb (fun m => String.eqb (profile1_id m) p1 && String.eqb (profile2_id m) p2) ms.

Definition id_taken (ms : list Match) (i : Id) : bool :=
  existsb (fun m => String.eqb (id m) i) ms.

Definition has_profile (db : DB) (i : Id) : bool :=
  match profiles db !! i with Some _ => true | None => false end.

(** The checks an inserted [matches] row goes through, in the engine's
    order: the before-insert trigger, the row's own constraints, the
    unique indexes, and the foreign keys at the end of the statement. *)
Definition check_insert (db : DB) (new : Match) : option PostgrestError :=
  match create_mutual_match new with
  | None => Some NotNullViolation
  | Some row =>
      if String.eqb (profile1_id row) (profile2_id row) then Some CheckViolation
      else if id_taken (matches db) (id row) then Some UniqueViolation
      else if pair_taken (matches db) (profile1_id row) (profile2_id row)
           then Some UniqueViolation
      else if has_profile db (profile1_id row) && has_profile db (profile2_id row)
           then None
      else Some ForeignKeyViolation
  end.

(** The row as the table holds it and as [select()] hands it back: the
    columns as sent, the two timestamps in the engine's own text. *)
Definition returned (timestamptz_out : string -> string) (new : Match) : Match :=
  mkMatch (id new) (profile1_id new) (profile2_id new) (status new) (match_score new)
          (timestamptz_out (created_at new)) (timestamptz_out (m_updated_at new)).

(** [from('matches').insert(row).select().single()] *)
Definition insert_match (fault : option PostgrestError)
    (timestamptz_out : string -> string) (new : Match)
  : Handler (option Match * option PostgrestError) :=
  fun db =>
    match fault with
    | Some e => (db, Continue (None, Some e))
    | None =>
        match check_insert db new with
        | Some e => (db, Continue (None, Some e))
        | None =>
            let row := returned timestamptz_out new in
            (mkDB (profiles db) (matches db ++ [row]), Continue (Some row, None))
        end
    end.

End Storage.
Import Storage.

(** ** The handler *)

Definition corsHeaders : list (string * string) :=
  [("Access-Control-Allow-Origin", "*");
   ("Access-Control-Allow-Headers", "authorization, x-client-info, apikey, content-type")].

(** Header names are matched without regard to case. *)
Definition lower (c : ascii) : ascii :=
  let n := N_of_ascii c in
  if ((65 <=? n) && (n <=? 90))%N then ascii_of_N (n + 32) else c.

Fixpoint lowercase (s : string) : string :=
  match s with
  | EmptyString => EmptyString
  | String c r => String (lower c) (lowercase r)
  end.

Definition has_header (name : string) (headers : list (string * string)) : bool :=
  existsb (fun h => String.eqb (lowercase h.1) (lowercase name)) headers.

(** [new Response(body, { status, headers })] with a string for a body, as
    everywhere in the handler: when the headers given name no content type,
    the runtime adds the one of a text body. *)
Definition new_Response (status : Z) (headers : list (string * string)) (body : Body)
  : Response :=
  mkResponse status
    (if has_header "Content-Type" headers then headers
     else headers ++ [("content-type", "text/plain;charset=UTF-8")])
    body.

(** [{ ...corsHeaders, 'Content-Type': 'application/json' }] *)
Definition json_headers : list (string * string) :=
  corsHeaders ++ [("Content-Type", "application/json")].

Definition json (status : Z) (b : Body) : Response := new_Response status json_headers b.

(** [s.replace(pat, rep)] with a string pattern: the first occurrence only. *)
Fixpoint strip_prefix (pat s : string) : option string :=
  match pat, s with
  | EmptyString, _ => Some s
  | String a pat', String b s' => if Ascii.eqb a b then strip_prefix pat' s' else None
  | String _ _, EmptyString => None
  end.

Fixpoint replace (pat rep s : string) : string :=
  match strip_prefix pat s with
  | Some rest => rep ++ rest
  | None =>
      match s with
      | EmptyString => EmptyString
      | String c s' => String c (replace pat rep s')
      end
  end.

(** [req.headers.get('Authorization')!] followed by [authHeader.replace]:
    the assertion is erased at run time, and the method call on [null]
    throws a [TypeError]. *)
Definition bearer_token (env : Env) (req : Request) : Handler string :=
  match authorization req with
  | Some authHeader => pure (replace "Bearer " "" authHeader)
  | None => raise (ThrownError (type_error_message env "replace"))
  end.

Definition auth_getUser (env : Env) (token : string)
  : Handler (option Id * option string) :=
  match getUser env token with
  | GetUserReturned user error => pure (user, error)
  | GetUserThrew t => raise t
  end.

(** The pair in canonical order, smaller identity first. *)
Definition profile1Id (userId matchedId : Id) : Id :=
  if id_lt userId matchedId then userId else matchedId.
Definition profile2Id (userId matchedId : Id) : Id :=
  if id_lt userId matchedId then matchedId else userId.

(** The body of the [try] block. *)
Definition try_block (req : Request) (env : Env) : Handler Response :=
  await token := bearer_token env req in
  await auth := auth_getUser env token in
  let (user, authError) := auth in
  match authError, user with
  | Some _, _ | None, None => respond (json 401 (BodyError "Unauthorized" None))
  | None, Some userId =>
    (* Step 1 *)
    await updateError := update_profiles (updateError env) (db_now_step1 env)
                           (set_is_searching true (now_step1 env))
                           (String.eqb userId) in
    match updateError with
    | Some _ => respond (json 500 (BodyError "Failed to update search status" None))
    | None =>
      (* Step 2 *)
      await found := select_candidates (searchError env) (scan_offset env) userId in
      let (potentialMatches, searchError) := found in
      match searchError with
      | Some _ => respond (json 500 (BodyError "Failed to search for matches" None))
      | None =>
        (* Step 3 *)
        match potentialMatches with
        | None | Some [] =>
            respond (json 200 (BodySearching "Looking for your perfect match..." userId))
        | Some (matchedUser :: _) =>
          (* Step 4 *)
          await inserted :=
              insert_match (insert_fault env) (timestamptz_out env)
                (mkMatch (uuid_generate_v4 env)
                         (profile1Id userId (pp_id matchedUser))
                         (profile2Id userId (pp_id matchedUser))
                         matched 85 (now_created env) (now_updated env)) in
          let (newMatch, matchError) := inserted in
          match matchError with
          | Some _ => respond (json 500 (BodyError "Failed to create match" None))
          | None =>
            await updateUsersError :=
                update_profiles (updateUsersError env) (db_now_step6 env)
                  (set_is_searching false (now_step6 env))
                  (fun k => String.eqb k userId || String.eqb k (pp_id matchedUser)) in
            (* updateUsersError is logged, not returned *)
            match newMatch with
            | None => raise (ThrownError (type_error_message env "id"))
            | Some newMatch =>
                pure (json 200 (BodyMatched "Match found!" (id newMatch) matchedUser
                                  (match_score newMatch) (created_at newMatch)))
            end
          end
        end
      end
    end
  end.

(** The [catch] clause. *)
Definition catch_block (error : JsThrown) : Response :=
  json 500 (BodyError "Internal server error"
              (Some (match error with
                     | ThrownError message => message
                     | ThrownOther => "Unknown error"
                     end))).

Definition serve (req : Request) (env : Env) (db : DB) : DB * Response :=
  if String.eqb (method req) "OPTIONS"
  then (db, new_Response 200 corsHeaders (BodyText "ok"))
  else
    match try_block req env db with
    | (db', Continue r) | (db', Respond r) => (db', r)
    | (db', Raise error) => (db', catch_block error)
    end.

(** ** Names for the stages of one run *)

Local Open Scope list_scope.

(** The caller is authenticated as [userId]: the header is present and the
    identity service returns that user without an error. *)
Definition authenticated (req : Request) (env : Env) (userId : Id) : Prop :=
  ∃ authHeader,
    authorization req = Some authHeader ∧
    getUser env (replace "Bearer " "" authHeader) = GetUserReturned (Some userId) None.

(** The tables after the step-1 write went through. *)
Definition announce (env : Env) (userId : Id) (db : DB) : DB :=
  (update_profiles None (db_now_step1 env)
     (set_is_searching true (now_step1 env)) (String.eqb userId) db).1.

(** The row the step-2 query hands back, when it does. *)
Definition chosen (env : Env) (userId : Id) (db : DB) : option PublicProfile :=
  match select_candidates None (scan_offset env) userId (announce env userId db) with
  | (_, Continue (Some (matchedUser :: _), _)) => Some matchedUser
  | _ => None
  end.

(** Nobody but the caller is both searching and active. *)
Definition no_candidate (userId : Id) (db : DB) : Prop :=
  ∀ k p, profiles db !! k = Some p →
         is_searching p = true → is_active p = true → k = userId.

(** The row submitted in step 5, and the row that comes back for it. *)
Definition new_row (env : Env) (userId : Id) (matchedUser : PublicProfile) : Match :=
  mkMatch (uuid_generate_v4 env)
          (profile1Id userId (pp_id matchedUser))
          (profile2Id userId (pp_id matchedUser))
          matched 85 (now_created env) (now_updated env).

Definition newMatch_row (env : Env) (userId : Id) (matchedUser : PublicProfile) : Match :=
  returned (timestamptz_out env) (new_row env userId matchedUser).

(** A run in which every step up to and including the insert went through. *)
Definition paired (req : Request) (env : Env) (db : DB)
    (userId : Id) (matchedUser : PublicProfile) : Prop :=
  method req ≠ "OPTIONS" ∧ authenticated req env userId ∧
  updateError env = None ∧ searchError env = None ∧
  chosen env userId db = Some matchedUser ∧
  insert_fault env = None ∧
  check_insert (announce env userId db) (new_row env userId matchedUser) = None.

Definition is_matched (r : Response) : Prop :=
  ∃ message match_id matchedUser matchScore createdAt,
    resp_body r = BodyMatched message match_id matchedUser matchScore createdAt.

(** The tables after the step-6 write was attempted. *)
Definition clear_flags (env : Env) (userId matchedId : Id) (db : DB) : DB :=
  (update_profiles (updateUsersError env) (db_now_step6 env)
     (set_is_searching false (now_step6 env))
     (fun k => String.eqb k userId || String.eqb k matchedId) db).1.

(** The smaller and the larger of two identities, by [String.compare]. *)
Definition spec_min (a b : Id) : Id :=
  match String.compare a b with Gt => b | _ => a end.
Definition spec_max (a b : Id) : Id :=
  match String.compare a b with Gt => a | _ => b end.

(** ** Sample data *)

Module Sample.

Definition profile (n : string) (active searching : bool) : Profile :=
  mkProfile n (Some "hello") (Some 30%Z) None (Some "other") "[]" active searching "t0".

(** An identity service that knows one token; the insert and the final
    update fail as given. *)
Definition env_with (userId : Id) (insert_fault updateUsersError : option PostgrestError)
  : Env :=
  mkEnv (fun token => if String.eqb token "tok" then GetUserReturned (Some userId) None
                      else GetUserReturned None (Some "invalid JWT"))
        (fun property =>
           String.append "Cannot read properties of null (reading '"
                         (String.append property "')"))
        "t1" "t1" None None 0 "t5" "t5" (fun sent => String.append sent "+00:00")
        "m1" insert_fault "t6" "t6" updateUsersError.

Definition env (userId : Id) : Env := env_with userId None None.

(** An identity service whose call throws. *)
Definition identity_down (cause : string) : Env :=
  mkEnv (fun _ => GetUserThrew (ThrownError cause))
        (fun property =>
           String.append "Cannot read properties of null (reading '"
                         (String.append property "')"))
        "t1" "t1" None None 0 "t5" "t5" (fun sent => String.append sent "+00:00")
        "m1" None "t6" "t6" None.

Definition post : Request := mkRequest "POST" (Some "Bearer tok").

(** Scenario B: [U2] is waiting when [U1] asks. *)
Definition waiting : DB :=
  mkDB (<["U1" := profile "one" true false]> (<["U2" := profile "two" true true]> ∅)) [].

(** Nobody else is waiting. *)
Definition alone : DB :=
  mkDB (<["U1" := profile "one" true false]> (<["U2" := profile "two" true false]> ∅)) [].


(** [U1] has been deactivated; [U2] is waiting. *)
Definition deactivated : DB :=
  mkDB (<["U1" := profile "one" false false]> (<["U2" := profile "two" true true]> ∅)) [].

End Sample.

(** ** The outcomes of one invocation *)

(** Every way the handler can end, with the tables it leaves and the
    response it sends. *)
Inductive Run (req : Request) (env : Env) (db : DB) : DB → Response → Prop :=
| RunPreflight :
    method req = "OPTIONS" →
    Run req env db db (new_Response 200 corsHeaders (BodyText "ok"))
| RunNoHeader :
    method req ≠ "OPTIONS" →
    authorization req = None →
    Run req env db db (catch_block (ThrownError (type_error_message env "replace")))
| RunIdentityThrew authHeader t :
    method req ≠ "OPTIONS" →
    authorization req = Some authHeader →
    getUser env (replace "Bearer " "" authHeader) = GetUserThrew t →
    Run req env db db (catch_block t)
| RunUnauthorized authHeader user authError :
    method req ≠ "OPTIONS" →
    authorization req = Some authHeader →
    getUser env (replace "Bearer " "" authHeader) = GetUserReturned user authError →
    user = None ∨ authError ≠ None →
    Run req env db db (json 401 (BodyError "Unauthorized" None))
| RunAnnounceFailed userId e :
    method req ≠ "OPTIONS" →
    authenticated req env userId →
    updateError env = Some e →
    Run req env db db (json 500 (BodyError "Failed to update search status" None))
| RunSearchFailed userId e :
    method req ≠ "OPTIONS" →
    authenticated req env userId →
    updateError env = None →
    searchError env = Some e →
    Run req env db (announce env userId db)
        (json 500 (BodyError "Failed to search for matches" None))
| RunSearching userId :
    method req ≠ "OPTIONS" →
    authenticated req env userId →
    updateError env = None →
    searchError env = None →
    chosen env userId db = None →
    Run req env db (announce env userId db)
        (json 200 (BodySearching "Looking for your perfect match..." userId))
| RunInsertRejected userId matchedUser e :
    method req ≠ "OPTIONS" →
    authenticated req env userId →
    updateError env = None →
    searchError env = None →
    chosen env userId db = Some matchedUser →
    (insert_match (insert_fault env) (timestamptz_out env)
       (new_row env userId matchedUser)
       (announce env userId db)).2 = Continue (None, Some e) →
    Run req env db (announce env userId db)
        (json 500 (BodyError "Failed to create match" None))
| RunMatched userId matchedUser :
    paired req env db userId matchedUser →
    Run req env db
        (clear_flags env userId (pp_id matchedUser)
           (mkDB (profiles (announce env userId db))
                 (matches db ++ [newMatch_row env userId matchedUser])))
        (json 200 (BodyMatched "Match found!" (uuid_generate_v4 env) matchedUser
                     85 (timestamptz_out env (now_created env)))).

(** The constraints of [matches] as a property of the tables: the primary
    key, the unique pair, the strict canonical order that the trigger and
    the check leave, and the two foreign keys. *)
Definition matches_wf (db : DB) : Prop :=
  NoDup (id <$> matches db) ∧
  NoDup ((fun m => (profile1_id m, profile2_id m)) <$> matches db) ∧
  Forall (fun m => id_lt (profile1_id m) (profile2_id m) = true ∧
                   has_profile db (profile1_id m) = true ∧
                   has_profile db (profile2_id m) = true) (matches db).

(** Two rows of [profiles] that differ at most in what the handler writes. *)
Definition same_person (p q : Profile) : Prop :=
  name p = name q ∧ bio p = bio q ∧ age p = age q ∧ location p = location q ∧
  gender p = gender q ∧ interests p = interests q ∧ is_active p = is_active q.

(** A sequence of invocations, one after the other. *)
Fixpoint serve_all (calls : list (Request * Env)) (db : DB) : DB :=
  match calls with
  | [] => db
  | (req, env) :: rest => serve_all rest (serve req env db).1
  end.

(** No two rows of [matches] relate the same two profiles, in either
    orientation. *)
Definition one_row_per_pair (db : DB) : Prop :=
  ∀ i j m1 m2,
    matches db !! i = Some m1 → matches db !! j = Some m2 →
    (profile1_id m1 = profile1_id m2 ∧ profile2_id m1 = profile2_id m2) ∨
    (profile1_id m1 = profile2_id m2 ∧ profile2_id m1 = profile1_id m2) →
    i = j.

(** ** More sample data *)

Module Outage.




(** A later invocation, with its own clock and a fresh match id. *)
Definition later (userId : Id) : Env :=
  mkEnv (getUser (Sample.env userId)) (type_error_message (Sample.env userId))
        "t7" "t7" None None 0 "t8" "t8"
        (timestamptz_out (Sample.env userId)) "m2" None "t9" "t9" None.

(** [U1] and [U2] were paired before; [U3] is waiting. *)
Definition second_round : DB :=
  mkDB (<["U1" := Sample.profile "one" true false]>
          (<["U2" := Sample.profile "two" true false]>
             (<["U3" := Sample.profile "three" true true]> ∅)))
       [mkMatch "m0" "U1" "U2" matched 85 "t0" "t0"].

(** [U2] and [U3] are both waiting. *)
Definition crowd : DB :=
  mkDB (<["U1" := Sample.profile "one" true false]>
          (<["U2" := Sample.profile "two" true true]>
             (<["U3" := Sample.profile "three" true true]> ∅)))
       [].

End Outage.

(** * The notification state of the client

    [frontend/src/hooks/useNotifications.ts]: the list of notifications and
    the unread counter held by the hook, and the four operations that
    change them in place.  Each operation is the composition of the state
    updaters it queues, applied once. *)

Module Notifications.

Inductive NotificationType := match_ | message_ | reveal | like | post | announcement.

Record Notification := mkNotification {
  id : string;
  type : NotificationType;
  title : string;
  message : string;
  timestamp : string;
  read : bool;
  userId : option string;
  avatar : option string
}.

(** [Omit<Notification, 'id' | 'timestamp'>] *)
Record Draft := mkDraft {
  d_type : NotificationType;
  d_title : string;
  d_message : string;
  d_read : bool;
  d_userId : option string;
  d_avatar : option string
}.

Record State := mkState {
  notifications : list Notification;
  unreadCount : Z
}.

Definition set_read (n : Notification) : Notification :=
  mkNotification (id n) (type n) (title n) (message n) (timestamp n) true
                 (userId n) (avatar n).

Definition markAsRead (i : string) (st : State) : State :=
  mkState (map (fun n => if String.eqb (id n) i then set_read n else n)
               (notifications st))
          (Z.max 0 (unreadCount st - 1)).

Definition markAllAsRead (st : State) : State :=
  mkState (map set_read (notifications st)) 0.

Definition deleteNotification (i : string) (st : State) : State :=
  let prev := notifications st in
  let count :=
    match List.find (fun n => String.eqb (id n) i) prev with
    | Some n => if negb (read n) then Z.max 0 (unreadCount st - 1) else unreadCount st
    | None => unreadCount st
    end in
  mkState (List.filter (fun n => negb (String.eqb (id n) i)) prev) count.

(** [now] is [Date.now()]. *)
Definition addNotification (now : N) (d : Draft) (st : State) : State :=
  let newNotification :=
    mkNotification (pretty now) (d_type d) (d_title d) (d_message d) "now"
                   (d_read d) (d_userId d) (d_avatar d) in
  mkState (newNotification :: notifications st)
          (if negb (read newNotification) then unreadCount st + 1 else unreadCount st).

(** The state the hook starts with. *)
Definition initial : State := mkState [] 0.

Inductive Action :=
| MarkAsRead (i : string)
| MarkAllAsRead
| Delete (i : string)
| Add (now : N) (d : Draft).

Definition step (st : State) (a : Action) : State :=
  match a with
  | MarkAsRead i => markAsRead i st
  | MarkAllAsRead => markAllAsRead st
  | Delete i => deleteNotification i st
  | Add now d => addNotification now d st
  end.

Definition run (actions : list Action) (st : State) : State :=
  fold_left step actions st.

(** The number of notifications in a list that are not read. *)
Definition cnt (l : list Notification) : nat :=
  length (List.filter (fun n => negb (read n)) l).

Definition unread (st : State) : Z := Z.of_nat (cnt (notifications st)).

(** Some notification of the list has the id and is not read. *)
Definition hit (i : string) (l : list Notification) : bool :=
  existsb (fun n => String.eqb (id n) i && negb (read n)) l.

Definition ids (st : State) : list string := map id (notifications st).

(** Every [Add] of the sequence comes with an id that is not in the list at
    that moment. *)
Fixpoint fresh_adds (actions : list Action) (st : State) : Prop :=
  match actions with
  | [] => True
  | a :: rest =>
      match a with
      | Add now _ => pretty now ∉ ids st
      | _ => True
      end ∧ fresh_adds rest (step st a)
  end.

(** Every [MarkAsRead] of the sequence names a notification that is in the
    list and unread at that moment. *)
Fixpoint marks_hit (actions : list Action) (st : State) : Prop :=
  match actions with
  | [] => True
  | a :: rest =>
      match a with
      | MarkAsRead i => ∃ n, n ∈ notifications st ∧ id n = i ∧ read n = false
      | _ => True
      end ∧ marks_hit rest (step st a)
  end.

(** Distinct ids, and a counter that is neither negative nor above the
    number of unread notifications. *)
Definition bounded (st : State) : Prop :=
  NoDup (ids st) ∧ (0 ≤ unreadCount st ≤ unread st)%Z.

(** Distinct ids, and a counter that is the number of unread notifications. *)
Definition exact (st : State) : Prop :=
  NoDup (ids st) ∧ unreadCount st = unread st.

Definition draft (t : string) (r : bool) : Draft :=
  mkDraft like t "" r None None.

End Notifications.

(** * Validation of the onboarding form

    [frontend/src/services/onboarding.ts].  The text the user typed is held
    as JavaScript holds it, a sequence of UTF-16 code units: [length]
    counts code units, and [trim] and the regular expressions look at one
    code unit at a time (every white-space character is a single code
    unit).  File names, MIME types and the messages the program builds are
    plain strings. *)

Module Onboarding.

Local Open Scope string_scope.

Definition code_unit := N.
Definition JsString := list code_unit.

(** The code unit of an ASCII character, and the code units of a literal
    written in ASCII. *)
Definition unit_of (c : ascii) : code_unit := N_of_ascii c.
Definition units (s : string) : JsString := unit_of <$> list_ascii_of_string s.

Record File := mkFile {
  file_name : string;
  size : N;
  type : string
}.

Record OnboardingData := mkData {
  bio : JsString;
  phone : option JsString;
  location : JsString;
  situation : JsString;
  profilePhoto : option File;
  interestPhotos : list File;
  questionnaire : list (N * string)
}.

(** White space as [trim] and the class [\s] have it: the language's
    WhiteSpace and LineTerminator characters.  These are tab to carriage
    return, the space, the no-break space, U+1680, U+2000 to U+200A, the
    line and paragraph separators, U+202F, U+205F, U+3000 and U+FEFF. *)
Definition is_space (c : code_unit) : bool :=
  ((0x9 <=? c) && (c <=? 0xD) || (c =? 0x20) || (c =? 0xA0) || (c =? 0x1680)
   || (0x2000 <=? c) && (c <=? 0x200A) || (c =? 0x2028) || (c =? 0x2029)
   || (c =? 0x202F) || (c =? 0x205F) || (c =? 0x3000) || (c =? 0xFEFF))%N.

Fixpoint trimStart (s : JsString) : JsString :=
  match s with
  | c :: r => if is_space c then trimStart r else s
  | [] => []
  end.

Fixpoint trimEnd (s : JsString) : JsString :=
  match s with
  | [] => []
  | c :: r =>
      match trimEnd r with
      | [] => if is_space c then [] else [c]
      | r' => c :: r'
      end
  end.

Definition trim (s : JsString) : JsString := trimEnd (trimStart s).

(** A string in a condition: the empty string is false. *)
Definition truthy (s : string) : bool := negb (String.eqb s "").

Definition nonempty (s : JsString) : bool :=
  match s with [] => false | _ :: _ => true end.

(** [!s || s.trim().length === 0] *)
Definition missing (s : JsString) : bool :=
  negb (nonempty s) || (length (trim s) =? 0)%nat.

Definition maxSize : N := 5 * 1024 * 1024.

Definition allowedTypes : list string :=
  ["image/jpeg"; "image/jpg"; "image/png"; "image/gif"; "image/webp"].

Definition includes (l : list string) (x : string) : bool :=
  existsb (String.eqb x) l.

(** The two checks made on a photo, with the name it has in the messages. *)
Definition photo_errors (label : string) (f : File) : list string :=
  ((if (maxSize <? size f)%N then [(label ++ " must be 5MB or smaller")%string] else []) ++
   (if negb (includes allowedTypes (type f))
    then [(label ++ " must be JPG, PNG, GIF, or WebP format")%string] else []))%list.

(** [s.replace(/[\s\-\(\)]/g, '')] *)
Fixpoint strip_phone (s : JsString) : JsString :=
  match s with
  | [] => []
  | c :: r =>
      if is_space c || (c =? unit_of "-")%N || (c =? unit_of "(")%N
         || (c =? unit_of ")")%N
      then strip_phone r else c :: strip_phone r
  end.

(** The classes [\d] and [[1-9]]. *)
Definition is_digit (c : code_unit) : bool :=
  ((unit_of "0" <=? c) && (c <=? unit_of "9"))%N.

Definition is_digit_1_9 (c : code_unit) : bool :=
  ((unit_of "1" <=? c) && (c <=? unit_of "9"))%N.

Definition all_digits (s : JsString) : bool := forallb is_digit s.

(** [/^[\+]?[1-9][\d]{0,15}$/.test(s)] *)
Definition phoneRegex_test (s : JsString) : bool :=
  let rest := match s with
              | c :: r => if (c =? unit_of "+")%N then r else s
              | [] => s
              end in
  match rest with
  | d :: ds => is_digit_1_9 d && all_digits ds && (length ds <=? 15)%nat
  | [] => false
  end.

(** The decimal digits of a number printed into a message or a name. *)
Definition decimal_digit (c : ascii) : bool :=
  let n := N_of_ascii c in ((48 <=? n) && (n <=? 57))%N.

Fixpoint decimal (s : string) : bool :=
  match s with
  | EmptyString => true
  | String c r => decimal_digit c && decimal r
  end.

Record Validation := mkValidation {
  valid : bool;
  errors : list string
}.

Definition validateOnboardingData (data : OnboardingData) : Validation :=
  let errors :=
   ((if missing (bio data) then ["Bio is required"] else []) ++
    (if missing (location data) then ["Location is required"] else []) ++
    (if missing (situation data) then ["Current situation is required"] else []) ++
    (if nonempty (bio data) && (500 <? length (bio data))%nat
     then ["Bio must be 500 characters or less"] else []) ++
    match profilePhoto data with
    | Some f => photo_errors "Profile photo" f
    | None => []
    end ++
    (if (5 <? length (interestPhotos data))%nat
     then ["Maximum 5 interest photos allowed"] else []) ++
    concat (imap (fun index photo =>
                    photo_errors ("Interest photo " ++ pretty (index + 1)%nat)%string
                                 photo)
                 (interestPhotos data)) ++
    match phone data with
    | Some p =>
        if nonempty p && (0 <? length (trim p))%nat
        then if negb (phoneRegex_test (strip_phone p))
             then ["Please enter a valid phone number"] else []
        else []
    | None => []
    end)%list in
  mkValidation (length errors =? 0)%nat errors.

(** ** What the form asks for, stated on its own *)

(** Some code unit of the string is not white space. *)
Definition has_text (s : JsString) : Prop :=
  ∃ c, c ∈ s ∧ is_space c = false.

Definition photo_ok (f : File) : Prop :=
  (size f ≤ 5242880)%N ∧ type f ∈ allowedTypes.

(** An optional plus sign, a digit from 1 to 9, and up to fifteen digits. *)
Definition phone_ok (s : JsString) : Prop :=
  ∃ sign d ds,
    s = (sign ++ d :: ds)%list ∧ (sign = [] ∨ sign = units "+") ∧
    is_digit_1_9 d = true ∧ Forall (fun c => is_digit c = true) ds ∧
    (length ds ≤ 15)%nat.

Definition acceptable (data : OnboardingData) : Prop :=
  has_text (bio data) ∧ (length (bio data) ≤ 500)%nat ∧
  has_text (location data) ∧ has_text (situation data) ∧
  (∀ f, profilePhoto data = Some f → photo_ok f) ∧
  (length (interestPhotos data) ≤ 5)%nat ∧
  Forall photo_ok (interestPhotos data) ∧
  (∀ p, phone data = Some p → has_text p → phone_ok (strip_phone p)).

(** ** File names for uploads *)

Inductive PhotoKind := profile | interest.

(** [s.split('.')]: the pieces between the dots, never an empty list. *)
Fixpoint split_dot (s : string) : list string :=
  match s with
  | EmptyString => [EmptyString]
  | String c r =>
      if Ascii.eqb c "."
      then EmptyString :: split_dot r
      else match split_dot r with
           | piece :: pieces => String c piece :: pieces
           | [] => [String c EmptyString]
           end
  end.

(** A value in a template literal; an absent one prints as [undefined]. *)
Definition interpolate (v : option string) : string :=
  match v with Some s => s | None => "undefined" end.

(** [now] is [Date.now()]. *)
Definition generateFileName (now : N) (userId : string) (file : File)
    (kind : PhotoKind) (index : option nat) : string :=
  let timestamp := now in
  let extension := last (split_dot (file_name file)) in
  let suffix := match kind with
                | profile => "profile"
                | interest => "interest-" ++ interpolate (pretty <$> index)
                end in
  userId ++ "/" ++ suffix ++ "-" ++ pretty timestamp ++ "." ++ interpolate extension.

(** The part of a name after its last dot; the whole name if it has none. *)
Definition after_last_dot (name ext : string) : Prop :=
  (∀ pre post, ext ≠ pre ++ String "." post) ∧
  (name = ext ∨ ∃ pre, name = pre ++ String "." ext).

Definition sample : OnboardingData :=
  mkData (units "Reader, hiker, cook.") (Some (units "+1 (555) 123-4567"))
         (units "Lisbon") (units "single")
         (Some (mkFile "me.jpg" 120000 "image/jpeg"))
         [mkFile "trail.png" 5242880 "image/png"] [].

(** The same form with a bio that is one EM SPACE (U+2003). *)
Definition blank_bio : OnboardingData :=
  mkData [0x2003%N] (Some (units "+1 (555) 123-4567"))
         (units "Lisbon") (units "single")
         (Some (mkFile "me.jpg" 120000 "image/jpeg"))
         [mkFile "trail.png" 5242880 "image/png"] [].

End Onboarding.

(** * Submitting the onboarding form

    [submitOnboardingData] and its helpers.  The storage bucket and the
    database are outside: every call to them is recorded in a log, and what
    they answer is a field of the environment.  [Date.now()] is read once
    per generated file name, in the order of the calls. *)

Module Submission.
Import Onboarding.

Local Open Scope string_scope.

Record PhotoRow := mkPhotoRow {
  profile_id : string;
  photo_url : string;
  photo_type : PhotoKind;
  is_primary : bool;
  upload_order : nat
}.

Record ProfileUpdates := mkUpdates {
  u_bio : JsString;
  u_phone : option JsString;
  u_location : JsString;
  u_situation : JsString;
  u_updated_at : string
}.

Record AnswerRow := mkAnswer {
  a_profile_id : string;
  a_question_id : string;
  a_answer_text : string;
  a_answer_value : option string
}.

(** The calls made to the bucket and to the database. *)
Inductive Op :=
| Upload (fileName : string) (file : File)
| InsertPhoto (row : PhotoRow)
| UpdateProfile (userId : string) (updates : ProfileUpdates)
| SelectQuestions
| InsertAnswers (rows : list AnswerRow).

Definition is_upload (op : Op) : bool :=
  match op with Upload _ _ => true | _ => false end.

Inductive UploadOutcome :=
| Uploaded (path : string)
| UploadError (message : string)
| UploadThrew (t : JsThrown).

(** What a write answers: no error, an error object, or a thrown value. *)
Inductive WriteOutcome :=
| Written
| WriteError (message : string)
| WriteThrew (t : JsThrown).

Inductive QuestionsOutcome :=
| Questions (data : option (list (string * option Z)))
| QuestionsError (message : string)
| QuestionsThrew (t : JsThrown).

Record Env := mkEnv {
  now : nat → N;
  upload : string → File → UploadOutcome;
  getPublicUrl : string → string;
  insert_photo : PhotoRow → WriteOutcome;
  toISOString : string;
  update_profile : string → ProfileUpdates → WriteOutcome;
  select_questions : QuestionsOutcome;
  insert_answers : list AnswerRow → WriteOutcome
}.

Record State := mkState {
  log : list Op;
  ticks : nat
}.

Record OnboardingResult := mkResult {
  success : bool;
  error : option string;
  profileId : option string
}.

(** [error instanceof Error ? error.message : fallback] *)
Definition message_or (fallback : string) (t : JsThrown) : string :=
  match t with ThrownError message => message | ThrownOther => fallback end.

Definition record (op : Op) (st : State) : State :=
  mkState (log st ++ [op])%list (ticks st).

Definition uploadPhoto (env : Env) (file : File) (fileName : string) (st : State)
  : State * (option string * option string) :=
  let st := record (Upload fileName file) st in
  match upload env fileName file with
  | UploadError message => (st, (None, Some message))
  | Uploaded path => (st, (Some (getPublicUrl env path), None))
  | UploadThrew t => (st, (None, Some (message_or "Unknown upload error" t)))
  end.

Definition savePhotoToDatabase (env : Env) (profileId photoUrl : string)
    (photoType : PhotoKind) (isPrimary : bool) (uploadOrder : nat) (st : State)
  : State * (bool * option string) :=
  let row := mkPhotoRow profileId photoUrl photoType isPrimary uploadOrder in
  let st := record (InsertPhoto row) st in
  match insert_photo env row with
  | WriteError message => (st, (false, Some message))
  | Written => (st, (true, None))
  | WriteThrew t => (st, (false, Some (message_or "Unknown database error" t)))
  end.

Definition getQuestionIds (env : Env) (st : State) : State * gmap Z string :=
  let st := record SelectQuestions st in
  match select_questions env with
  | QuestionsError _ => (st, ∅)
  | Questions data =>
      (st, foldl (fun questionMap question =>
                    match question.2 with
                    | Some order_index => <[(order_index - 1)%Z := question.1]> questionMap
                    | None => questionMap
                    end) ∅ (default [] data))
  | QuestionsThrew _ => (st, ∅)
  end.

(** The questionnaire is given by its entries, index first. *)
Definition saveAnswers (env : Env) (profileId : string)
    (questionnaire : list (N * string)) (questionIds : gmap Z string) (st : State)
  : State * (bool * option string) :=
  let answers :=
    omap (fun entry =>
            match questionIds !! Z.of_N entry.1 with
            | Some questionId =>
                if truthy questionId
                then Some (mkAnswer profileId questionId entry.2 None)
                else None
            | None => None
            end) questionnaire in
  match answers with
  | [] => (st, (true, None))
  | _ =>
      let st := record (InsertAnswers answers) st in
      match insert_answers env answers with
      | WriteError message => (st, (false, Some message))
      | Written => (st, (true, None))
      | WriteThrew t => (st, (false, Some (message_or "Unknown answers error" t)))
      end
  end.

Definition generate (env : Env) (userId : string) (file : File) (kind : PhotoKind)
    (index : option nat) (st : State) : State * string :=
  (mkState (log st) (S (ticks st)),
   generateFileName (now env (ticks st)) userId file kind index).

Definition failed (message : string) : OnboardingResult :=
  mkResult false (Some message) None.

(** A string or [null] in a condition, and in a template literal. *)
Definition truthy_opt (v : option string) : bool :=
  match v with Some s => truthy s | None => false end.

Definition interpolate_null (v : option string) : string :=
  match v with Some s => s | None => "null" end.

(** Step 2: the loop over the interest photos, from position [i]. *)
Fixpoint upload_interest (env : Env) (userId : string) (photos : list File) (i : nat)
    (interestPhotoUrls : list string) (st : State)
  : State * (list string + OnboardingResult) :=
  match photos with
  | [] => (st, inl interestPhotoUrls)
  | photo :: rest =>
      let (st, fileName) := generate env userId photo interest (Some (i + 1)%nat) st in
      let (st, uploadResult) := uploadPhoto env photo fileName st in
      if truthy_opt uploadResult.2
      then (st, inr (failed ("Interest photo " ++ pretty (i + 1)%nat
                               ++ " upload failed: " ++ interpolate_null uploadResult.2)))
      else
        upload_interest env userId rest (S i)
          (if truthy_opt uploadResult.1
           then (interestPhotoUrls ++ [default "" uploadResult.1])%list
           else interestPhotoUrls) st
  end.

(** Step 4: the loop over the uploaded interest photos, from position [i]. *)
Fixpoint save_interest (env : Env) (userId : string) (urls : list string) (i : nat)
    (st : State) : State * option OnboardingResult :=
  match urls with
  | [] => (st, None)
  | url :: rest =>
      let (st, photoSave) :=
        savePhotoToDatabase env userId url interest false (i + 1) st in
      if negb photoSave.1
      then (st, Some (failed ("Interest photo " ++ pretty (i + 1)%nat
                                ++ " database save failed: "
                                ++ interpolate_null photoSave.2)))
      else save_interest env userId rest (S i) st
  end.

(** Steps 5 and 6. *)
Definition finish (env : Env) (userId : string) (data : OnboardingData) (st : State)
  : State * OnboardingResult :=
  let profileUpdates :=
    mkUpdates (bio data)
              (match phone data with
               | Some p => if nonempty p then Some p else None
               | None => None
               end)
              (location data) (situation data) (toISOString env) in
  let st := record (UpdateProfile userId profileUpdates) st in
  match update_profile env userId profileUpdates with
  | WriteError message => (st, failed ("Profile update failed: " ++ message))
  | WriteThrew t =>
      (st, failed (message_or "Unknown error during onboarding submission" t))
  | Written =>
      match questionnaire data with
      | [] => (st, mkResult true None (Some userId))
      | _ =>
          let (st, questionIds) := getQuestionIds env st in
          let (st, answersResult) :=
            saveAnswers env userId (questionnaire data) questionIds st in
          if negb answersResult.1
          then (st, failed ("Questionnaire save failed: "
                              ++ interpolate_null answersResult.2))
          else (st, mkResult true None (Some userId))
      end
  end.

(** Steps 3 and 4, then [finish]. *)
Definition save_photos (env : Env) (userId : string) (data : OnboardingData)
    (profilePhotoUrl : option string) (interestPhotoUrls : list string) (st : State)
  : State * OnboardingResult :=
  let (st, stop) :=
    if truthy_opt profilePhotoUrl
    then
      let (st, profilePhotoSave) :=
        savePhotoToDatabase env userId (default "" profilePhotoUrl)
                            profile true 0 st in
      if negb profilePhotoSave.1
      then (st, Some (failed ("Profile photo database save failed: "
                                ++ interpolate_null profilePhotoSave.2)))
      else (st, None)
    else (st, None) in
  match stop with
  | Some r => (st, r)
  | None =>
      let (st, stop) := save_interest env userId interestPhotoUrls 0 st in
      match stop with
      | Some r => (st, r)
      | None => finish env userId data st
      end
  end.

Definition submitOnboardingData (env : Env) (userId : string) (data : OnboardingData)
  : State * OnboardingResult :=
  let st := mkState [] 0 in
  (* Step 1 *)
  let '(st, profilePhotoUrl, stop) :=
    match profilePhoto data with
    | Some photo =>
        let (st, profileFileName) := generate env userId photo profile None st in
        let (st, profileUploadResult) := uploadPhoto env photo profileFileName st in
        if truthy_opt profileUploadResult.2
        then (st, None,
              Some (failed ("Profile photo upload failed: "
                              ++ interpolate_null profileUploadResult.2)))
        else (st, profileUploadResult.1, None)
    | None => (st, None, None)
    end in
  match stop with
  | Some r => (st, r)
  | None =>
      (* Step 2 *)
      let (st, uploaded) := upload_interest env userId (interestPhotos data) 0 [] st in
      match uploaded with
      | inr r => (st, r)
      | inl interestPhotoUrls =>
          save_photos env userId data profilePhotoUrl interestPhotoUrls st
      end
  end.

(** ** Reading the log *)

(** The operation was answered without an error: for an upload, without an
    error message that counts as one; the question lookup is never treated
    as failed. *)
Definition answered_ok (env : Env) (op : Op) : Prop :=
  match op with
  | Upload fileName file =>
      truthy_opt (uploadPhoto env file fileName (mkState [] 0)).2.2 = false
  | InsertPhoto row => insert_photo env row = Written
  | UpdateProfile userId updates => update_profile env userId updates = Written
  | SelectQuestions => True
  | InsertAnswers rows => insert_answers env rows = Written
  end.



(** The rows [saveAnswers] builds from the questionnaire. *)
Definition answers_for (profileId : string) (questionnaire : list (N * string))
    (questionIds : gmap Z string) : list AnswerRow :=
  omap (fun entry =>
          match questionIds !! Z.of_N entry.1 with
          | Some questionId =>
              if truthy questionId
              then Some (mkAnswer profileId questionId entry.2 None)
              else None
          | None => None
          end) questionnaire.

(** An insert into [answers] carries the rows built from the form's
    questionnaire and the question lookup, and there is at least one. *)
Definition from_questionnaire (env : Env) (userId : string) (data : OnboardingData)
    (op : Op) : Prop :=
  match op with
  | InsertAnswers rows =>
      rows ≠ [] ∧
      rows = answers_for userId (questionnaire data)
                         (getQuestionIds env (mkState [] 0)).2
  | _ => True
  end.

(** Every insert into [answers] recorded so far is of that kind. *)
Definition sourced (env : Env) (userId : string) (data : OnboardingData)
    (st : State) : Prop :=
  Forall (from_questionnaire env userId data) (log st).

(** The order indexes of the question rows, where present. *)
Definition order_indexes (rows : list (string * option Z)) : list Z :=
  omap snd rows.

(** The questionnaire entry has a question: some row of the lookup has the
    entry's index plus one as its order index, and an id that is not
    empty. *)
Definition asked (qrows : list (string * option Z)) (entry : N * string) : Prop :=
  Exists (fun q => q.2 = Some (Z.of_N entry.1 + 1)%Z ∧ q.1 ≠ "") qrows.

#[global] Instance asked_dec qrows entry : Decision (asked qrows entry).
Proof. unfold asked. apply _. Defined.

(** ** Sample environments *)

Definition calm : Env :=
  mkEnv (fun tick => 1700000000000 + N.of_nat tick)%N
        (fun fileName _ => Uploaded fileName)
        (fun path => "https://cdn.example/" ++ path)
        (fun _ => Written) "2024-01-01T00:00:00.000Z"
        (fun _ _ => Written)
        (Questions (Some [("q-1", Some 1%Z); ("q-2", Some 2%Z)]))
        (fun _ => Written).

(** The bucket refuses the second interest photo. *)
Definition bucket_full : Env :=
  mkEnv (now calm)
        (fun fileName _ =>
           if String.prefix "u-1/interest-2" fileName
           then UploadError "quota exceeded" else Uploaded fileName)
        (getPublicUrl calm) (insert_photo calm) (toISOString calm)
        (update_profile calm) (select_questions calm) (insert_answers calm).


Definition form : OnboardingData :=
  mkData (units "Reader, hiker, cook.") (Some (units "+1 (555) 123-4567"))
         (units "Lisbon") (units "single")
         (Some (mkFile "me.jpg" 120000 "image/jpeg"))
         [mkFile "trail.png" 5000 "image/png"; mkFile "boat.png" 7000 "image/png"]
         [(0%N, "Adventure outdoors"); (1%N, "Deep conversations")].

End Submission.

(** Unfold the monad and the handler's own steps, keeping the storage
    operations folded. *)
Ltac unfold_handler :=
  unfold serve, try_block, bind, bearer_token, auth_getUser, pure, respond, raise.

Ltac enter_authenticated Hm Hauth :=
  let authHeader := fresh "authHeader" in
  let Hh := fresh "Hheader" in
  let Hg := fresh "HgetUser" in
  destruct Hauth as (authHeader & Hh & Hg);
  unfold_handler;
  rewrite (proj2 (String.eqb_neq _ _) Hm), Hh, Hg; cbn beta iota.

(** ** The ordering of identities *)

Section Ordering.

Implicit Types a b : Id.

Lemma id_lt_compare a b : id_lt a b = true ↔ String.compare a b = Lt.
Proof. unfold id_lt, String.ltb. destruct (String.compare a b); naive_solver. Qed.

Lemma compare_flip a b : String.compare a b = CompOpp (String.compare b a).
Proof. apply String.compare_antisym. Qed.

Lemma id_lt_irrefl a : id_lt a a = false.
Proof.
  unfold id_lt, String.ltb. pose proof (compare_flip a a) as F.
  destruct (String.compare a a); simpl in F; congruence.
Qed.

Lemma id_lt_asym a b : id_lt a b = true → id_lt b a = false.
Proof.
  unfold id_lt, String.ltb. rewrite (compare_flip a b).
  destruct (String.compare b a); simpl; congruence.
Qed.

Lemma profile1Id_spec a b : profile1Id a b = spec_min a b.
Proof.
  unfold profile1Id, spec_min, id_lt, String.ltb.
  destruct (String.compare a b) eqn:E; try done.
  by apply String.compare_eq_iff in E.
Qed.

Lemma profile2Id_spec a b : profile2Id a b = spec_max a b.
Proof.
  unfold profile2Id, spec_max, id_lt, String.ltb.
  destruct (String.compare a b) eqn:E; try done.
  by apply String.compare_eq_iff in E.
Qed.

Lemma spec_min_comm a b : spec_min a b = spec_min b a.
Proof.
  unfold spec_min. rewrite (compare_flip a b).
  destruct (String.compare b a) eqn:E; simpl; try done.
  by apply String.compare_eq_iff in E.
Qed.

Lemma spec_max_comm a b : spec_max a b = spec_max b a.
Proof.
  unfold spec_max. rewrite (compare_flip a b).
  destruct (String.compare b a) eqn:E; simpl; try done.
  by apply String.compare_eq_iff in E.
Qed.

Lemma id_lt_total a b : a ≠ b → id_lt b a = false → id_lt a b = true.
Proof.
  unfold id_lt, String.ltb. rewrite (compare_flip a b). intros Hne.
  destruct (String.compare b a) eqn:E; simpl; try done.
  by apply String.compare_eq_iff in E.
Qed.

(** The canonical pair never trips the trigger. *)
Lemma canonical_passes_trigger a b : id_lt (profile2Id a b) (profile1Id a b) = false.
Proof.
  unfold profile1Id, profile2Id. destruct (id_lt a b) eqn:E.
  - by apply id_lt_asym.
  - done.
Qed.

Lemma canonical_distinct a b : a ≠ b → profile1Id a b ≠ profile2Id a b.
Proof. unfold profile1Id, profile2Id. destruct (id_lt a b); congruence. Qed.

Lemma canonical_strict a b : a ≠ b → id_lt (profile1Id a b) (profile2Id a b) = true.
Proof.
  intros Hne. unfold profile1Id, profile2Id. destruct (id_lt a b) eqn:E; [done|].
  by apply id_lt_total.
Qed.

Lemma canonical_members a b :
  (profile1Id a b = a ∧ profile2Id a b = b) ∨ (profile1Id a b = b ∧ profile2Id a b = a).
Proof. unfold profile1Id, profile2Id. destruct (id_lt a b); auto. Qed.

End Ordering.

(** ** The storage operations *)

Section StorageFacts.

Context (env : Env) (userId : Id) (db : DB).

Lemma announce_matches : matches (announce env userId db) = matches db.
Proof. reflexivity. Qed.

Lemma announce_caller :
  profiles (announce env userId db) !! userId =
  (fun p => handle_updated_at (db_now_step1 env) (set_is_searching true (now_step1 env) p))
    <$> profiles db !! userId.
Proof.
  unfold announce, update_profiles. simpl. rewrite map_lookup_imap.
  destruct (profiles db !! userId); simpl; [|done].
  by rewrite String.eqb_refl.
Qed.

Lemma announce_other k : k ≠ userId →
  profiles (announce env userId db) !! k = profiles db !! k.
Proof.
  intros Hk. unfold announce, update_profiles. simpl. rewrite map_lookup_imap.
  destruct (profiles db !! k); simpl; [|done].
  destruct (String.eqb_spec userId k); congruence.
Qed.

Lemma announce_has_profile k :
  has_profile (announce env userId db) k = has_profile db k.
Proof.
  unfold has_profile. destruct (decide (k = userId)) as [->|Hk].
  - rewrite announce_caller. by destruct (profiles db !! userId).
  - by rewrite announce_other.
Qed.

(** After step 1 the caller, if it has a row, is flagged as searching. *)
Lemma announce_flag p : profiles (announce env userId db) !! userId = Some p →
  is_searching p = true.
Proof.
  rewrite announce_caller. destruct (profiles db !! userId); simpl; [|done].
  by intros [= <-].
Qed.

End StorageFacts.

Section Candidates.

Context (env : Env) (userId : Id) (db : DB).

Lemma limit1_subset {A} (offset : nat) (rows : list A) x :
  x ∈ limit1 offset rows → x ∈ rows.
Proof.
  unfold limit1. destruct rows as [|r rows]; [done|].
  intros Hx. apply elem_of_take in Hx as (i & Hi & _).
  rewrite lookup_drop in Hi. by eapply list_elem_of_lookup_2.
Qed.

(** What step 2 may hand back: a row other than the caller's, active and
    searching, with the selected columns of that row. *)
Lemma chosen_spec matchedUser : chosen env userId db = Some matchedUser →
  pp_id matchedUser ≠ userId ∧
  ∃ p, profiles db !! pp_id matchedUser = Some p ∧
       is_searching p = true ∧ is_active p = true ∧
       matchedUser = to_public (pp_id matchedUser, p).
Proof.
  unfold chosen, select_candidates.
  set (rows := map_to_list _).
  destruct (to_public <$> limit1 (scan_offset env) rows) as [|c cs] eqn:E; [done|].
  intros [= <-].
  assert (c ∈ to_public <$> limit1 (scan_offset env) rows) as Hc
    by (rewrite E; apply list_elem_of_here).
  apply list_elem_of_fmap in Hc as ([k p] & -> & Hkp).
  apply limit1_subset in Hkp. subst rows.
  apply elem_of_map_to_list in Hkp.
  apply map_lookup_filter_Some in Hkp as [Hlk (Hs & Ha & Hne)].
  cbn [fst snd] in Hs, Ha, Hne. cbn [pp_id to_public fst snd]. split; [done|].
  rewrite announce_other in Hlk by done. eauto.
Qed.

Lemma no_candidate_rows : no_candidate userId db →
  map_to_list (filter (candidate userId) (profiles (announce env userId db))) = [].
Proof.
  intros Hno. apply map_to_list_empty_iff, map_empty_filter_2.
  intros k p Hlk (Hs & Ha & Hne). cbn [fst snd] in Hs, Ha, Hne.
  rewrite announce_other in Hlk by done. apply Hne. eauto.
Qed.

End Candidates.

(** ** Running the handler *)

Section Steps.

Context (env : Env) (userId : Id) (db : DB).

Lemma step1_run :
  update_profiles None (db_now_step1 env)
    (set_is_searching true (now_step1 env)) (String.eqb userId) db
  = (announce env userId db, Continue None).
Proof. reflexivity. Qed.

Lemma step2_found matchedUser : chosen env userId db = Some matchedUser →
  ∃ rest, select_candidates None (scan_offset env) userId (announce env userId db)
          = (announce env userId db, Continue (Some (matchedUser :: rest), None)).
Proof.
  unfold chosen, select_candidates.
  destruct (to_public <$> _) as [|c cs]; [done|].
  intros [= ->]. by exists cs.
Qed.

Lemma step2_empty : no_candidate userId db →
  select_candidates None (scan_offset env) userId (announce env userId db)
  = (announce env userId db, Continue (Some [], None)).
Proof.
  intros Hno. unfold select_candidates.
  by rewrite (no_candidate_rows env userId db Hno).
Qed.


Lemma step5_accepted out row : check_insert db row = None →
  insert_match None out row db
  = (mkDB (profiles db) (matches db ++ [returned out row]),
     Continue (Some (returned out row), None)).
Proof. unfold insert_match. by intros ->. Qed.

Lemma step6_run matchedId :
  update_profiles (updateUsersError env) (db_now_step6 env)
    (set_is_searching false (now_step6 env))
    (fun k => String.eqb k userId || String.eqb k matchedId) db
  = (clear_flags env userId matchedId db, Continue (updateUsersError env)).
Proof. unfold clear_flags, update_profiles. by destruct (updateUsersError env). Qed.

End Steps.

Section Runs.

Context (req : Request) (env : Env) (db : DB) (userId : Id).
Hypothesis Hmethod : method req ≠ "OPTIONS".
Hypothesis Hauth : authenticated req env userId.
Hypothesis Hstep1 : updateError env = None.
Hypothesis Hstep2 : searchError env = None.

Lemma run_searching :
  no_candidate userId db →
  serve req env db =
    (announce env userId db,
     json 200 (BodySearching "Looking for your perfect match..." userId)).
Proof.
  intros Hno. enter_authenticated Hmethod Hauth.
  rewrite Hstep1, Hstep2, step1_run, (step2_empty env userId db Hno).
  reflexivity.
Qed.

Context (matchedUser : PublicProfile).
Hypothesis Hchosen : chosen env userId db = Some matchedUser.


Lemma run_matched :
  insert_fault env = None →
  check_insert (announce env userId db) (new_row env userId matchedUser) = None →
  serve req env db =
    (clear_flags env userId (pp_id matchedUser)
       (mkDB (profiles (announce env userId db))
             (matches db ++ [newMatch_row env userId matchedUser])),
     json 200 (BodyMatched "Match found!" (uuid_generate_v4 env) matchedUser
                 85 (timestamptz_out env (now_created env)))).
Proof.
  intros Hfault Hcheck. enter_authenticated Hmethod Hauth.
  destruct (step2_found env userId db _ Hchosen) as [rest Hsel].
  rewrite Hstep1, Hstep2, step1_run, Hsel.
  fold (new_row env userId matchedUser).
  rewrite Hfault, (step5_accepted _ _ _ Hcheck), step6_run.
  reflexivity.
Qed.

End Runs.

(** Every run either goes all the way through the insert, or leaves
    [matches] as it was and does not answer [matched]. *)
Lemma serve_cases req env db :
  (∃ userId matchedUser, paired req env db userId matchedUser) ∨
  (matches (serve req env db).1 = matches db ∧ ¬ is_matched (serve req env db).2).
Proof.
  unfold_handler.
  destruct (String.eqb_spec (method req) "OPTIONS") as [|Hm].
  { right. split; [done|]. by intros (? & ? & ? & ? & ? & ?). }
  destruct (authorization req) as [authHeader|] eqn:Hh; cbn beta iota;
    [|right; split; [done|]; by intros (? & ? & ? & ? & ? & ?)].
  destruct (getUser env _) as [[userId|] [authError|]|t] eqn:Hg; cbn beta iota;
    try (right; split; [done|]; by intros (? & ? & ? & ? & ? & ?)).
  destruct (updateError env) eqn:H1;
    [right; split; [done|]; by intros (? & ? & ? & ? & ? & ?)|].
  rewrite step1_run.
  destruct (searchError env) eqn:H2;
    [right; split; [done|]; by intros (? & ? & ? & ? & ? & ?)|].
  destruct (chosen env userId db) as [matchedUser|] eqn:Hc.
  - destruct (step2_found env userId db _ Hc) as [rest ->]. cbn beta iota.
    fold (new_row env userId matchedUser).
    destruct (insert_fault env) eqn:H5;
      [right; split; [done|]; by intros (? & ? & ? & ? & ? & ?)|].
    destruct (check_insert (announce env userId db) (new_row env userId matchedUser)) eqn:Hk.
    + right. unfold insert_match. rewrite Hk. cbn beta iota.
      split; [done|]. by intros (? & ? & ? & ? & ? & ?).
    + left. exists userId, matchedUser. unfold paired, authenticated. eauto 10.
  - right. revert Hc. unfold chosen, select_candidates.
    destruct (to_public <$> _) as [|c cs]; [|done]. intros _.
    split; [done|]. by intros (? & ? & ? & ? & ? & ?).
Qed.

Lemma authenticated_unique req env u1 u2 :
  authenticated req env u1 → authenticated req env u2 → u1 = u2.
Proof. intros (h1 & H1 & G1) (h2 & H2 & G2). congruence. Qed.

(** A response that says [matched] comes from a run that went through the
    insert, and fixes the final tables and every field of the answer. *)
Lemma matched_inv req env db db' r message match_id matchedUser matchScore createdAt :
  serve req env db = (db', r) →
  resp_body r = BodyMatched message match_id matchedUser matchScore createdAt →
  ∃ userId,
    paired req env db userId matchedUser ∧
    db' = clear_flags env userId (pp_id matchedUser)
            (mkDB (profiles (announce env userId db))
                  (matches db ++ [newMatch_row env userId matchedUser])) ∧
    match_id = uuid_generate_v4 env ∧ matchScore = 85%Z ∧
    createdAt = timestamptz_out env (now_created env).
Proof.
  intros Hrun Hbody.
  destruct (serve_cases req env db) as [(u & c & Hp)|[_ Hno]].
  - pose proof Hp as (Hm & Ha & H1 & H2 & Hc & H5 & Hk).
    rewrite (run_matched req env db u Hm Ha H1 H2 c Hc H5 Hk) in Hrun.
    injection Hrun as <- <-. simpl in Hbody. injection Hbody as <- <- <- <- <-.
    by exists u.
  - exfalso. apply Hno. rewrite Hrun. unfold is_matched. simpl. eauto 10.
Qed.

Section InsertChecks.

Context (db : DB) (row : Match).

Lemma pair_taken_elem (ms : list Match) m :
  m ∈ ms → pair_taken ms (profile1_id m) (profile2_id m) = true.
Proof.
  intros Hm. unfold pair_taken. apply existsb_exists. exists m.
  split; [by apply list_elem_of_In|]. by rewrite !String.eqb_refl.
Qed.

(** A row that passes has two distinct parties, both with a profile, and
    its pair is new. *)
Lemma check_insert_accepts : check_insert db row = None →
  profile1_id row ≠ profile2_id row ∧
  pair_taken (matches db) (profile1_id row) (profile2_id row) = false ∧
  has_profile db (profile1_id row) = true ∧
  has_profile db (profile2_id row) = true.
Proof.
  unfold check_insert, create_mutual_match.
  destruct (id_lt _ _); [done|].
  destruct (String.eqb_spec (profile1_id row) (profile2_id row)); [done|].
  destruct (id_taken _ _); [done|].
  destruct (pair_taken _ _); [done|].
  destruct (has_profile db (profile1_id row)), (has_profile db (profile2_id row));
    done.
Qed.


End InsertChecks.

Lemma check_insert_iff db row :
  check_insert db row = None ↔
  id_lt (profile1_id row) (profile2_id row) = true ∧
  id_taken (matches db) (id row) = false ∧
  pair_taken (matches db) (profile1_id row) (profile2_id row) = false ∧
  has_profile db (profile1_id row) = true ∧
  has_profile db (profile2_id row) = true.
Proof.
  unfold check_insert, create_mutual_match. split.
  - destruct (id_lt (profile2_id row) (profile1_id row)) eqn:Hgt; [done|].
    destruct (String.eqb_spec (profile1_id row) (profile2_id row)) as [|Hne]; [done|].
    destruct (id_taken _ _); [done|].
    destruct (pair_taken _ _); [done|].
    destruct (has_profile db (profile1_id row)), (has_profile db (profile2_id row));
      try done.
    intros _. split; [by apply id_lt_total|done].
  - intros (Hlt & Hid & Hpair & Hp1 & Hp2).
    rewrite (id_lt_asym _ _ Hlt). cbn beta iota.
    rewrite Hid, Hpair, Hp1, Hp2.
    destruct (String.eqb_spec (profile1_id row) (profile2_id row)) as [E|]; [|done].
    rewrite E, id_lt_irrefl in Hlt. done.
Qed.

Section ClearFlags.

Context (env : Env) (userId matchedId : Id) (db : DB).

Lemma clear_flags_matches : matches (clear_flags env userId matchedId db) = matches db.
Proof. unfold clear_flags, update_profiles. by destruct (updateUsersError env). Qed.


Lemma clear_flags_party k : updateUsersError env = None →
  k = userId ∨ k = matchedId →
  has_profile db k = true →
  ∃ p, profiles (clear_flags env userId matchedId db) !! k = Some p ∧
       is_searching p = false.
Proof.
  intros Hok Hk. unfold has_profile, clear_flags, update_profiles.
  rewrite Hok. simpl. rewrite map_lookup_imap.
  destruct (profiles db !! k) as [p|]; [intros _|done]. simpl.
  assert (String.eqb k userId || String.eqb k matchedId = true) as ->.
  { destruct Hk as [->| ->]; rewrite String.eqb_refl; [done|apply orb_true_r]. }
  eauto.
Qed.

End ClearFlags.

(** ** Properties of RequestMatch *)

(** C1 (canonical ordering).  Let the caller and the candidate that step 2
    returned be the two users [a] and [b], in either role.  If the answer
    is [matched], the run has appended exactly one row to [matches], and
    that row has [profile1_id] the smaller and [profile2_id] the larger of
    [a] and [b] in the order of identities.  And it is the handler that
    puts the pair in this order, whoever called: when the steps before the
    insert went through, the generated id is new, no row for the pair
    (smaller, larger) exists and the caller has a profile, the answer is
    [matched]. *)
Theorem matched_row_is_canonical (a b : Id) req env db db' r userId matchedUser :
  authenticated req env userId →
  serve req env db = (db', r) →
  (userId = a ∧ pp_id matchedUser = b) ∨ (userId = b ∧ pp_id matchedUser = a) →
  (∀ message match_id matchScore createdAt,
     resp_body r = BodyMatched message match_id matchedUser matchScore createdAt →
     ∃ m, matches db' = matches db ++ [m] ∧ id m = match_id ∧ status m = matched ∧
          profile1_id m = spec_min a b ∧ profile2_id m = spec_max a b) ∧
  (method req ≠ "OPTIONS" →
   updateError env = None →
   searchError env = None →
   chosen env userId db = Some matchedUser →
   insert_fault env = None →
   id_taken (matches db) (uuid_generate_v4 env) = false →
   pair_taken (matches db) (spec_min a b) (spec_max a b) = false →
   has_profile db userId = true →
   resp_body r = BodyMatched "Match found!" (uuid_generate_v4 env) matchedUser 85
                   (timestamptz_out env (now_created env))).
Proof.
  intros Hauth Hrun Hroles.
  assert (spec_min userId (pp_id matchedUser) = spec_min a b ∧
          spec_max userId (pp_id matchedUser) = spec_max a b) as [Emin Emax].
  { destruct Hroles as [[-> ->]|[-> ->]]; [done|].
    by rewrite (spec_min_comm a b), (spec_max_comm a b). }
  split.
  - intros message match_id matchScore createdAt Hbody.
    destruct (matched_inv _ _ _ _ _ _ _ _ _ _ Hrun Hbody)
      as (u & Hp & -> & -> & _ & _).
    assert (u = userId) as ->
      by (destruct Hp as (_ & Ha & _); eapply authenticated_unique; eauto).
    exists (newMatch_row env userId matchedUser).
    rewrite clear_flags_matches.
    cbn [matches newMatch_row returned new_row id status profile1_id profile2_id].
    by rewrite profile1Id_spec, profile2Id_spec, Emin, Emax.
  - intros Hm H1 H2 Hc H5 Hid Hpair Hprof.
    destruct (chosen_spec env userId db matchedUser Hc) as (Hne & p & Hp & _).
    assert (check_insert (announce env userId db) (new_row env userId matchedUser) = None)
      as Hk.
    { apply check_insert_iff. cbn [new_row id profile1_id profile2_id].
      rewrite !announce_has_profile, announce_matches.
      split; [apply canonical_strict; congruence|]. split; [done|].
      split; [by rewrite profile1Id_spec, profile2Id_spec, Emin, Emax|].
      assert (has_profile db (pp_id matchedUser) = true) as Hcand
        by (unfold has_profile; by rewrite Hp).
      destruct (canonical_members userId (pp_id matchedUser)) as [[-> ->]|[-> ->]];
        done. }
    rewrite (run_matched req env db userId Hm Hauth H1 H2 matchedUser Hc H5 Hk) in Hrun.
    by injection Hrun as _ <-.
Qed.

(** Both roles.  [U1] asks while [U2] is waiting, and [U2] asks while [U1]
    is waiting: each is paired, and the row is [("U1", "U2")] both times. *)
Lemma matched_row_is_canonical_witness :
  let first_waits :=
    mkDB (<["U1" := Sample.profile "one" true true]>
            (<["U2" := Sample.profile "two" true false]> ∅)) [] in
  let one := mkPublic "U1" "one" (Some "hello") (Some 30%Z) None (Some "other") "[]" in
  let two := mkPublic "U2" "two" (Some "hello") (Some 30%Z) None (Some "other") "[]" in
  (resp_body (serve Sample.post (Sample.env "U1") Sample.waiting).2
     = BodyMatched "Match found!" "m1" two 85 "t5+00:00" ∧
   ∃ m, matches (serve Sample.post (Sample.env "U1") Sample.waiting).1 = [] ++ [m] ∧
        id m = "m1" ∧ status m = matched ∧
        profile1_id m = spec_min "U1" "U2" ∧ profile2_id m = spec_max "U1" "U2") ∧
  (resp_body (serve Sample.post (Sample.env "U2") first_waits).2
     = BodyMatched "Match found!" "m1" one 85 "t5+00:00" ∧
   ∃ m, matches (serve Sample.post (Sample.env "U2") first_waits).1 = [] ++ [m] ∧
        id m = "m1" ∧ status m = matched ∧
        profile1_id m = spec_min "U1" "U2" ∧ profile2_id m = spec_max "U1" "U2").
Proof.
  intros first_waits one two. split.
  - destruct (matched_row_is_canonical "U1" "U2" Sample.post (Sample.env "U1")
                Sample.waiting _ _ "U1" two
                (ex_intro _ "Bearer tok" (conj eq_refl eq_refl))
                (surjective_pairing _)
                (or_introl (conj eq_refl eq_refl))) as [Hrow Hlive].
    assert (resp_body (serve Sample.post (Sample.env "U1") Sample.waiting).2
            = BodyMatched "Match found!" "m1" two 85 "t5+00:00") as Hbody.
    { apply Hlive; [discriminate|vm_compute; reflexivity..]. }
    split; [exact Hbody|]. exact (Hrow _ _ _ _ Hbody).
  - destruct (matched_row_is_canonical "U1" "U2" Sample.post (Sample.env "U2")
                first_waits _ _ "U2" one
                (ex_intro _ "Bearer tok" (conj eq_refl eq_refl))
                (surjective_pairing _)
                (or_intror (conj eq_refl eq_refl))) as [Hrow Hlive].
    assert (resp_body (serve Sample.post (Sample.env "U2") first_waits).2
            = BodyMatched "Match found!" "m1" one 85 "t5+00:00") as Hbody.
    { apply Hlive; [discriminate|vm_compute; reflexivity..]. }
    split; [exact Hbody|]. exact (Hrow _ _ _ _ Hbody).
Defined.

(** C2 (no self-match).  A run leaves [matches] as it was or appends one
    row; in the second case the candidate step 2 returned has an identity
    other than the caller's (the [neq] filter of the query), the row's two
    parties are the caller and that candidate, and so the row is not a pair
    of one identity [u] with itself. *)
Theorem no_self_match req env db db' r (u : Id) :
  serve req env db = (db', r) →
  matches db' = matches db ∨
  ∃ userId matchedUser m,
    authenticated req env userId ∧
    chosen env userId db = Some matchedUser ∧
    pp_id matchedUser ≠ userId ∧
    matches db' = matches db ++ [m] ∧
    ((profile1_id m = userId ∧ profile2_id m = pp_id matchedUser) ∨
     (profile1_id m = pp_id matchedUser ∧ profile2_id m = userId)) ∧
    profile1_id m ≠ profile2_id m ∧
    ¬ (profile1_id m = u ∧ profile2_id m = u).
Proof.
  intros Hrun.
  destruct (serve_cases req env db) as [(userId & c & Hp)|[Hsame _]].
  - right. pose proof Hp as (Hm & Ha & H1 & H2 & Hc & H5 & Hk).
    rewrite (run_matched req env db userId Hm Ha H1 H2 c Hc H5 Hk) in Hrun.
    injection Hrun as <- _.
    destruct (chosen_spec env userId db c Hc) as [Hne _].
    exists userId, c, (newMatch_row env userId c).
    rewrite clear_flags_matches.
    cbn [matches newMatch_row returned new_row profile1_id profile2_id].
    assert (profile1Id userId (pp_id c) ≠ profile2Id userId (pp_id c)) as Hd
      by (apply canonical_distinct; congruence).
    repeat split; try done.
    + apply canonical_members.
    + intros [E1 E2]. congruence.
  - left. by rewrite Hrun in Hsame.
Qed.

Lemma no_self_match_witness :
  let run := serve Sample.post (Sample.env "U1") Sample.waiting in
  matches run.1 = matches Sample.waiting ∨
  ∃ userId matchedUser m,
    authenticated Sample.post (Sample.env "U1") userId ∧
    chosen (Sample.env "U1") userId Sample.waiting = Some matchedUser ∧
    pp_id matchedUser ≠ userId ∧
    matches run.1 = matches Sample.waiting ++ [m] ∧
    ((profile1_id m = userId ∧ profile2_id m = pp_id matchedUser) ∨
     (profile1_id m = pp_id matchedUser ∧ profile2_id m = userId)) ∧
    profile1_id m ≠ profile2_id m ∧
    ¬ (profile1_id m = "U1" ∧ profile2_id m = "U1").
Proof.
  intros run.
  apply (no_self_match Sample.post (Sample.env "U1") Sample.waiting run.1 run.2 "U1").
  apply surjective_pairing.
Defined.

Lemma limit1_nil {A} (offset : nat) (rows : list A) :
  limit1 offset rows = [] → rows = [].
Proof.
  destruct rows as [|r rows]; [done|]. unfold limit1.
  set (l := r :: rows). set (k := offset mod length l).
  assert (k < length l) as Hk by (apply Nat.mod_upper_bound; done).
  apply lookup_lt_is_Some_2 in Hk as [x Hx].
  by rewrite (drop_S l x k Hx).
Qed.

(** The step-2 query comes back empty exactly when nobody else is both
    searching and active. *)
Lemma chosen_none env userId db :
  chosen env userId db = None ↔ no_candidate userId db.
Proof.
  split.
  - unfold chosen, select_candidates.
    destruct (to_public <$> _) as [|c cs] eqn:E; [intros _|done].
    apply fmap_nil_inv, limit1_nil, map_to_list_empty_iff in E.
    intros k p Hlk Hs Ha. destruct (decide (k = userId)) as [|Hne]; [done|].
    exfalso. rewrite <- (announce_other env userId db k Hne) in Hlk.
    by apply (map_empty_filter_1 _ _ E k p Hlk).
  - intros Hno. unfold chosen. by rewrite (step2_empty env userId db Hno).
Qed.


(** C3 (missing credential).  A request without an [Authorization] header
    does not reach the 401 branch: the method call on the absent header
    throws, and the [catch] clause answers 500 with the runtime's message.
    Nothing is written. *)
Theorem missing_credential_is_internal_error env db :
  serve (mkRequest "POST" None) env db =
    (db, json 500 (BodyError "Internal server error"
                     (Some (type_error_message env "replace")))).
Proof. reflexivity. Qed.






(** The same caller asks again once the storage engine is back: the tables
    the failed run left behind are enough for the pairing to go through. *)
Example retry_after_insert_failure :
  let failed := serve Sample.post
                  (Sample.env_with "U1" (Some (TransportFault "timeout")) None)
                  Sample.waiting in
  failed.2 = json 500 (BodyError "Failed to create match" None) ∧
  (serve Sample.post (Sample.env "U1") failed.1).2 =
    json 200 (BodyMatched "Match found!" "m1"
                (to_public ("U2", Sample.profile "two" true true)) 85 "t5+00:00").
Proof. vm_compute. split; reflexivity. Qed.

(** C6 (flags cleared).  After a [matched] answer in a run whose step-6
    write succeeded, the caller's row and the candidate's row both exist
    and both have [is_searching = false]. *)
Theorem flags_cleared_after_match req env db db' r userId
    message match_id matchedUser matchScore createdAt :
  authenticated req env userId →
  serve req env db = (db', r) →
  resp_body r = BodyMatched message match_id matchedUser matchScore createdAt →
  updateUsersError env = None →
  (∃ p, profiles db' !! userId = Some p ∧ is_searching p = false) ∧
  (∃ q, profiles db' !! pp_id matchedUser = Some q ∧ is_searching q = false).
Proof.
  intros Hauth Hrun Hbody H6.
  destruct (matched_inv _ _ _ _ _ _ _ _ _ _ Hrun Hbody)
    as (u & Hp & -> & _).
  destruct Hp as (_ & Ha & _ & _ & _ & _ & Hk).
  assert (u = userId) as -> by (eapply authenticated_unique; eauto).
  apply check_insert_accepts in Hk as (_ & _ & Hp1 & Hp2).
  cbn [new_row profile1_id profile2_id] in Hp1, Hp2.
  assert (has_profile (announce env userId db) userId = true ∧
          has_profile (announce env userId db) (pp_id matchedUser) = true) as [Hu Hc].
  { destruct (canonical_members userId (pp_id matchedUser)) as [[E1 E2]|[E1 E2]];
      rewrite E1 in Hp1; rewrite E2 in Hp2; done. }
  split; apply clear_flags_party; auto.
Qed.

(** Scenario B: both rows end with the flag cleared. *)
Lemma flags_cleared_after_match_witness :
  let run := serve Sample.post (Sample.env "U1") Sample.waiting in
  (∃ p, profiles run.1 !! "U1" = Some p ∧ is_searching p = false) ∧
  (∃ q, profiles run.1 !! "U2" = Some q ∧ is_searching q = false).
Proof.
  intros run.
  apply (flags_cleared_after_match Sample.post (Sample.env "U1") Sample.waiting
           run.1 run.2 "U1" "Match found!" "m1"
           (to_public ("U2", Sample.profile "two" true true)) 85 "t5+00:00").
  - exists "Bearer tok". split; reflexivity.
  - apply surjective_pairing.
  - vm_compute. reflexivity.
  - reflexivity.
Defined.



(** C8, as the handler has it.  When the [try] block throws, the answer is
    500 with the error "Internal server error" and a [details] member that
    repeats the message of the thrown [Error], or "Unknown error" for any
    other thrown value. *)
Theorem fault_response_repeats_message req env db db' error :
  method req ≠ "OPTIONS" →
  try_block req env db = (db', Raise error) →
  serve req env db =
    (db', json 500 (BodyError "Internal server error"
                      (Some (match error with
                             | ThrownError message => message
                             | ThrownOther => "Unknown error"
                             end)))).
Proof.
  intros Hm Hthrow. unfold serve.
  by rewrite (proj2 (String.eqb_neq _ _) Hm), Hthrow.
Qed.

Lemma fault_response_repeats_message_witness :
  serve Sample.post (Sample.identity_down "connect ECONNREFUSED 10.0.0.7:9999")
        Sample.waiting =
    (Sample.waiting,
     json 500 (BodyError "Internal server error"
                 (Some "connect ECONNREFUSED 10.0.0.7:9999"))).
Proof.
  apply (fault_response_repeats_message Sample.post
           (Sample.identity_down "connect ECONNREFUSED 10.0.0.7:9999")
           Sample.waiting Sample.waiting
           (ThrownError "connect ECONNREFUSED 10.0.0.7:9999")).
  - discriminate.
  - reflexivity.
Defined.

(** C8, as stated, fails: the 500 answer is not the same for every fault.
    Two runs that differ only in the cause of the fault answer differently,
    each repeating its cause. *)
Lemma fault_detail_reaches_caller :
  ¬ (∀ req env1 env2 db e1 e2,
       (try_block req env1 db).2 = Raise e1 →
       (try_block req env2 db).2 = Raise e2 →
       (serve req env1 db).2 = (serve req env2 db).2).
Proof.
  intros Hsame.
  specialize (Hsame Sample.post
                (Sample.identity_down "connect ECONNREFUSED 10.0.0.7:9999")
                (Sample.identity_down "certificate has expired")
                Sample.waiting _ _ eq_refl eq_refl).
  discriminate Hsame.
Qed.

(** C9 (inactive caller).  The candidate is always active, but the caller's
    own [is_active] is never read: a deactivated caller is paired, and the
    new row names the deactivated profile. *)
Theorem inactive_caller_is_matched :
  let run := serve Sample.post (Sample.env "U1") Sample.deactivated in
  is_active <$> profiles Sample.deactivated !! "U1" = Some false ∧
  run.2 = json 200 (BodyMatched "Match found!" "m1"
                      (to_public ("U2", Sample.profile "two" true true)) 85
                      "t5+00:00") ∧
  matches run.1 = [mkMatch "m1" "U1" "U2" matched 85 "t5+00:00" "t5+00:00"] ∧
  is_active <$> profiles run.1 !! "U1" = Some false.
Proof. vm_compute. repeat split; reflexivity. Qed.



(** ** Further properties of the handler *)

Lemma serve_run req env db :
  Run req env db (serve req env db).1 (serve req env db).2.
Proof.
  unfold_handler.
  destruct (String.eqb_spec (method req) "OPTIONS") as [Hm|Hm];
    [by apply RunPreflight|].
  destruct (authorization req) as [authHeader|] eqn:Hh; cbn beta iota;
    [|by apply RunNoHeader].
  destruct (getUser env _) as [user authError|t] eqn:Hg; cbn beta iota;
    [|by eapply RunIdentityThrew].
  destruct authError as [e|];
    [eapply RunUnauthorized; eauto|].
  destruct user as [userId|];
    [|eapply RunUnauthorized; eauto].
  assert (authenticated req env userId) as Ha by (exists authHeader; eauto).
  destruct (updateError env) as [e|] eqn:H1; [by eapply RunAnnounceFailed|].
  rewrite step1_run.
  destruct (searchError env) as [e|] eqn:H2; [by eapply RunSearchFailed|].
  destruct (chosen env userId db) as [matchedUser|] eqn:Hc.
  - destruct (step2_found env userId db _ Hc) as [rest ->]. cbn beta iota.
    fold (new_row env userId matchedUser).
    destruct (insert_match (insert_fault env) (timestamptz_out env)
                (new_row env userId matchedUser)
                (announce env userId db)) as [db5 [[newMatch matchError]| |]] eqn:H5.
    + destruct matchError as [e|].
      * assert (newMatch = None ∧ db5 = announce env userId db) as [-> ->].
        { revert H5. unfold insert_match.
          destruct (insert_fault env); [by intros [= <- <-]|].
          destruct (check_insert _ _); by intros [= <- <-]. }
        eapply RunInsertRejected; eauto. by rewrite H5.
      * revert H5. unfold insert_match.
        destruct (insert_fault env) eqn:Hf; [done|].
        destruct (check_insert _ _) eqn:Hk; [done|]. intros [= <- <-].
        rewrite step6_run. cbn beta iota.
        apply RunMatched. by repeat split.
    + revert H5. unfold insert_match.
      destruct (insert_fault env); [done|]. by destruct (check_insert _ _).
    + revert H5. unfold insert_match.
      destruct (insert_fault env); [done|]. by destruct (check_insert _ _).
  - apply chosen_none in Hc as Hno.
    rewrite (step2_empty env userId db Hno). cbn beta iota.
    by apply RunSearching.
Qed.


Lemma serve_inv req env db db' r :
  serve req env db = (db', r) → Run req env db db' r.
Proof. intros Hrun. pose proof (serve_run req env db) as H. by rewrite Hrun in H. Qed.

Lemma json_response status b : json status b = mkResponse status json_headers b.
Proof. reflexivity. Qed.

Lemma preflight_response :
  new_Response 200 corsHeaders (BodyText "ok")
  = mkResponse 200 (corsHeaders ++ [("content-type", "text/plain;charset=UTF-8")])
               (BodyText "ok").
Proof. reflexivity. Qed.

(** Every response carries the CORS headers.  The preflight answer is the
    text "ok", for which the runtime adds the content type of a text body;
    every other response is declared as JSON by the handler. *)
Theorem cors_on_every_response req env db :
  (∀ h, h ∈ corsHeaders → h ∈ resp_headers (serve req env db).2) ∧
  (resp_headers (serve req env db).2
       = corsHeaders ++ [("content-type", "text/plain;charset=UTF-8")] ∧
     resp_body (serve req env db).2 = BodyText "ok" ∧ method req = "OPTIONS"
   ∨ resp_headers (serve req env db).2
       = corsHeaders ++ [("Content-Type", "application/json")] ∧
     method req ≠ "OPTIONS").
Proof.
  pose proof (serve_run req env db) as H.
  destruct (serve req env db) as [db' r]. cbn [fst snd] in *.
  destruct H as [| | | | | | | |u c (Hm & _)];
    unfold catch_block; rewrite ?json_response, ?preflight_response;
    cbn [resp_headers resp_body]; unfold json_headers;
    (split; [intros h Hh; apply elem_of_app; by left|]);
    first [by left|by right].
Qed.

(** The status code and the body agree: text, [searching] and [matched]
    bodies come with 200; an error body comes with 401 exactly when it says
    "Unauthorized", and with 500 otherwise. *)
Theorem status_matches_body req env db :
  match resp_body (serve req env db).2 with
  | BodyText _ | BodySearching _ _ | BodyMatched _ _ _ _ _ =>
      resp_status (serve req env db).2 = 200%Z
  | BodyError e d =>
      (resp_status (serve req env db).2 = 401%Z ∧ e = "Unauthorized" ∧ d = None) ∨
      (resp_status (serve req env db).2 = 500%Z ∧ e ≠ "Unauthorized")
  end.
Proof.
  pose proof (serve_run req env db) as H.
  destruct (serve req env db) as [db' r]. cbn [fst snd] in *.
  destruct H; cbn; auto.
Qed.







(** Answers that come before the first write leave the tables untouched:
    the preflight answer, 401, the step-1 failure, and every answer of the
    [catch] clause. *)
Theorem early_answers_write_nothing req env db db' r :
  serve req env db = (db', r) →
  (∃ text, resp_body r = BodyText text) ∨
  (∃ details,
     resp_body r = BodyError "Unauthorized" details ∨
     resp_body r = BodyError "Failed to update search status" details ∨
     resp_body r = BodyError "Internal server error" details) →
  db' = db.
Proof.
  intros Hrun%serve_inv Hbody.
  destruct Hrun; try done; exfalso;
    destruct Hbody as [[? Hb]|[? [Hb|[Hb|Hb]]]]; discriminate Hb.
Qed.

Lemma early_answers_write_nothing_witness :
  (serve Sample.post (Sample.identity_down "certificate has expired")
     Sample.waiting).1 = Sample.waiting.
Proof.
  apply (early_answers_write_nothing Sample.post
           (Sample.identity_down "certificate has expired") Sample.waiting _
           (json 500 (BodyError "Internal server error"
                        (Some "certificate has expired")))).
  - reflexivity.
  - right. exists (Some "certificate has expired"). right. right. reflexivity.
Defined.


Section Profiles.

Context (fault : option PostgrestError) (db_now ts : string) (v : bool)
        (sel : Id → bool) (db : DB).

Lemma update_profiles_lookup k :
  profiles (update_profiles fault db_now (set_is_searching v ts) sel db).1 !! k =
  (fun p => match fault with
            | Some _ => p
            | None => if sel k then handle_updated_at db_now (set_is_searching v ts p)
                      else p
            end) <$> profiles db !! k.
Proof.
  unfold update_profiles. destruct fault; simpl.
  - by destruct (profiles db !! k).
  - rewrite map_lookup_imap. by destruct (profiles db !! k).
Qed.

Lemma update_profiles_unselected k : sel k = false →
  profiles (update_profiles fault db_now (set_is_searching v ts) sel db).1 !! k
  = profiles db !! k.
Proof.
  intros Hk. rewrite update_profiles_lookup, Hk.
  destruct fault, (profiles db !! k); done.
Qed.

Lemma update_profiles_same_person k :
  match profiles db !! k,
        profiles (update_profiles fault db_now (set_is_searching v ts) sel db).1 !! k
  with
  | Some p, Some q => same_person p q
  | None, None => True
  | _, _ => False
  end.
Proof.
  rewrite update_profiles_lookup.
  destruct (profiles db !! k) as [p|]; simpl; [|done].
  destruct fault; [done|]. by destruct (sel k).
Qed.

End Profiles.

Lemma same_person_trans p q r : same_person p q → same_person q r → same_person p r.
Proof. unfold same_person. intros ? ?. destruct_and!. repeat split; congruence. Qed.

Lemma same_person_refl p : same_person p p.
Proof. done. Qed.

(** The handler neither creates nor deletes a profile, and of a profile it
    changes at most [is_searching] and [updated_at]: the selected columns
    and [is_active] are as before. *)
Theorem profiles_keep_identity req env db k :
  match profiles db !! k, profiles (serve req env db).1 !! k with
  | Some p, Some q => same_person p q
  | None, None => True
  | _, _ => False
  end.
Proof.
  pose proof (serve_run req env db) as H.
  destruct (serve req env db) as [db' r]. cbn [fst snd] in *.
  destruct H as [| | | | | |u|u c e|u c _].
  1-5: by destruct (profiles db !! k).
  1-3: apply (update_profiles_same_person None).
  pose proof (update_profiles_same_person None (db_now_step1 env) (now_step1 env)
                true (String.eqb u) db k) as H1.
  pose proof (update_profiles_same_person (updateUsersError env) (db_now_step6 env)
                (now_step6 env) false
                (fun k => String.eqb k u || String.eqb k (pp_id c))
                (mkDB (profiles (announce env u db))
                      (matches db ++ [newMatch_row env u c])) k) as H2.
  fold (clear_flags env u (pp_id c)
          (mkDB (profiles (announce env u db)) (matches db ++ [newMatch_row env u c])))
    in H2.
  cbn [profiles] in H2. fold (announce env u db) in H1.
  destruct (profiles db !! k), (profiles (announce env u db) !! k),
    (profiles (clear_flags _ _ _ _) !! k); try done.
  by eapply same_person_trans.
Qed.

(** A profile that is neither the authenticated caller nor the candidate
    named in a [matched] answer is left exactly as it was. *)
Theorem bystanders_untouched req env db db' r k :
  serve req env db = (db', r) →
  ¬ authenticated req env k →
  (∀ message match_id matchedUser matchScore createdAt,
     resp_body r = BodyMatched message match_id matchedUser matchScore createdAt →
     pp_id matchedUser ≠ k) →
  profiles db' !! k = profiles db !! k.
Proof.
  intros Hrun%serve_inv Hk Hcand.
  destruct Hrun as [| | | | |u e Hm Ha|u Hm Ha|u c e Hm Ha|u c (Hm & Ha & _)];
    try done.
  1-3: apply announce_other; by intros ->.
  assert (k ≠ u) as Hu by (by intros ->).
  assert (k ≠ pp_id c) as Hc by (intros ->; by eapply Hcand).
  unfold clear_flags. rewrite update_profiles_unselected.
  - by apply announce_other.
  - apply orb_false_iff. split; by apply String.eqb_neq.
Qed.

(** [U1] is paired with one of the two waiting users; the other one's row
    is untouched. *)
Lemma bystanders_untouched_witness :
  let run := serve Sample.post (Sample.env "U1") Outage.crowd in
  ∃ k, k ≠ "U1" ∧ is_searching <$> profiles Outage.crowd !! k = Some true ∧
       profiles run.1 !! k = profiles Outage.crowd !! k.
Proof.
  intros run. exists "U2". split; [discriminate|]. split; [reflexivity|].
  apply (bystanders_untouched Sample.post (Sample.env "U1") Outage.crowd run.1 run.2).
  - apply surjective_pairing.
  - intros (h & [= <-] & Hg).
    vm_compute in Hg. discriminate Hg.
  - vm_compute. intros ? ? ? ? ? [= _ _ <- _ _]. discriminate.
Defined.

(** ** The constraints of [matches] *)

Lemma existsb_false_fmap {A} (f : A → Id) (l : list A) x :
  existsb (fun a => String.eqb (f a) x) l = false → x ∉ f <$> l.
Proof.
  intros Hf (a & -> & Ha)%list_elem_of_fmap.
  assert (existsb (fun a0 => String.eqb (f a0) (f a)) l = true) as Ht.
  { apply existsb_exists. exists a. split; [by apply list_elem_of_In|].
    apply String.eqb_refl. }
  congruence.
Qed.

Lemma pair_taken_false ms p1 p2 :
  pair_taken ms p1 p2 = false →
  (p1, p2) ∉ (fun m => (profile1_id m, profile2_id m)) <$> ms.
Proof.
  intros Hf (m & [= -> ->] & Hm)%list_elem_of_fmap.
  by rewrite (pair_taken_elem ms m Hm) in Hf.
Qed.

(** An insert without a transport fault goes through exactly when the row
    is in strict canonical order, its id and its pair are new, and both
    parties have a profile; it then appends the row and returns it.  In
    every other case the tables are as before and an error comes back. *)
Theorem insert_accepted_iff fault out db row :
  (insert_match fault out row db
     = (mkDB (profiles db) (matches db ++ [returned out row]),
        Continue (Some (returned out row), None)) ↔
   fault = None ∧
   id_lt (profile1_id row) (profile2_id row) = true ∧
   id_taken (matches db) (id row) = false ∧
   pair_taken (matches db) (profile1_id row) (profile2_id row) = false ∧
   has_profile db (profile1_id row) = true ∧
   has_profile db (profile2_id row) = true) ∧
  (insert_match fault out row db
     = (mkDB (profiles db) (matches db ++ [returned out row]),
        Continue (Some (returned out row), None)) ∨
   ∃ e, insert_match fault out row db = (db, Continue (None, Some e))).
Proof.
  unfold insert_match. destruct fault as [e|].
  { split; [|eauto]. split; [done|]. by intros [? _]. }
  destruct (check_insert db row) as [e|] eqn:Hk.
  - split; [|eauto]. split; [done|].
    intros [_ Hc%check_insert_iff]. congruence.
  - split; [|by left]. split; [|done]. intros _. split; [done|].
    by apply check_insert_iff.
Qed.

Lemma has_profile_update fault db_now ts v sel db k :
  has_profile (update_profiles fault db_now (set_is_searching v ts) sel db).1 k
  = has_profile db k.
Proof.
  unfold has_profile. rewrite update_profiles_lookup.
  by destruct (profiles db !! k).
Qed.

Lemma matches_wf_ext db db' :
  (∀ k, has_profile db' k = has_profile db k) →
  matches db' = matches db →
  matches_wf db → matches_wf db'.
Proof.
  intros Hp Hm (Hid & Hpair & Hall). unfold matches_wf. rewrite Hm.
  repeat split; try done.
  eapply Forall_impl; [exact Hall|]. intros m. by rewrite !Hp.
Qed.

Lemma matches_wf_insert db out row :
  check_insert db row = None → matches_wf db →
  matches_wf (mkDB (profiles db) (matches db ++ [returned out row])).
Proof.
  intros (Hlt & Hid & Hpair & Hp1 & Hp2)%check_insert_iff (Nid & Npair & Hall).
  unfold matches_wf. cbn [matches]. rewrite !fmap_app.
  cbn [fmap list_fmap returned id profile1_id profile2_id].
  split; [|split].
  - apply NoDup_app. split; [done|]. split; [|apply NoDup_singleton].
    intros x Hx ->%list_elem_of_singleton.
    by apply (existsb_false_fmap id (matches db) (id row)).
  - apply NoDup_app. split; [done|]. split; [|apply NoDup_singleton].
    intros x Hx ->%list_elem_of_singleton.
    by apply (pair_taken_false (matches db) (profile1_id row) (profile2_id row)).
  - apply Forall_app. split; [done|]. by apply Forall_singleton.
Qed.

Lemma serve_keeps_matches_wf req env db :
  matches_wf db → matches_wf (serve req env db).1.
Proof.
  intros Hwf. pose proof (serve_run req env db) as H.
  destruct (serve req env db) as [db' r]. cbn [fst snd] in *.
  destruct H as [| | | | |u e|u|u c e|u c (_ & _ & _ & _ & _ & _ & Hk)]; try done.
  1-3: by apply (matches_wf_ext db); [apply has_profile_update|..].
  eapply matches_wf_ext;
    [apply has_profile_update|apply clear_flags_matches|].
  apply (matches_wf_insert (announce env u db) (timestamptz_out env)); [done|].
  by apply (matches_wf_ext db); [apply has_profile_update|..].
Qed.

Lemma matches_wf_one_row_per_pair db : matches_wf db → one_row_per_pair db.
Proof.
  intros (_ & Npair & Hall) i j m1 m2 Hi Hj Hsame.
  assert (profile1_id m1 = profile1_id m2 ∧ profile2_id m1 = profile2_id m2) as [E1 E2].
  { destruct Hsame as [|[E1 E2]]; [done|]. exfalso.
    pose proof (Forall_lookup_1 _ _ _ _ Hall Hi) as (L1 & _).
    pose proof (Forall_lookup_1 _ _ _ _ Hall Hj) as (L2 & _).
    rewrite E1, E2 in L1. rewrite (id_lt_asym _ _ L2) in L1. done. }
  eapply NoDup_lookup; [exact Npair|..].
  - by rewrite list_lookup_fmap, Hi.
  - rewrite list_lookup_fmap, Hj. simpl. by rewrite E1, E2.
Qed.

(** The handler keeps the constraints of [matches]: distinct ids, distinct
    pairs, strict canonical order and existing parties; and tables that
    satisfy them hold at most one row for any two profiles, in either
    orientation. *)
Theorem constraints_are_kept req env db :
  matches_wf db →
  matches_wf (serve req env db).1 ∧ one_row_per_pair (serve req env db).1.
Proof.
  intros Hwf%(serve_keeps_matches_wf req env).
  split; [done|by apply matches_wf_one_row_per_pair].
Qed.

Lemma constraints_are_kept_witness :
  let db' := (serve Sample.post (Sample.env "U1") Outage.second_round).1 in
  matches_wf db' ∧ one_row_per_pair db'.
Proof.
  apply (constraints_are_kept Sample.post (Sample.env "U1") Outage.second_round).
  unfold matches_wf. cbn [matches Outage.second_round fmap list_fmap].
  split; [apply NoDup_singleton|]. split; [apply NoDup_singleton|].
  apply Forall_singleton. vm_compute. auto.
Defined.

(** Starting from an empty [matches] table, whatever invocations follow one
    another, no two profiles are ever related by more than one row. *)
Theorem never_two_rows_for_a_pair calls db :
  matches db = [] →
  one_row_per_pair (serve_all calls db).
Proof.
  intros Hempty. apply matches_wf_one_row_per_pair.
  assert (matches_wf db) as Hwf.
  { unfold matches_wf. rewrite Hempty. cbn. repeat split; constructor. }
  clear Hempty. revert db Hwf.
  induction calls as [|[req env] calls IH]; intros db Hwf; [done|].
  cbn [serve_all]. by apply IH, serve_keeps_matches_wf.
Qed.

(** [U1] is paired with [U2]; then both ask again, one after the other. *)
Lemma never_two_rows_for_a_pair_witness :
  one_row_per_pair
    (serve_all [(Sample.post, Sample.env "U1");
                (Sample.post, Outage.later "U2");
                (Sample.post, Outage.later "U1")] Sample.waiting).
Proof.
  apply (never_two_rows_for_a_pair _ Sample.waiting). reflexivity.
Defined.

(** ** The candidate query *)

Lemma limit1_length {A} (offset : nat) (rows : list A) :
  (length (limit1 offset rows) ≤ 1)%nat.
Proof.
  unfold limit1. destruct rows; [simpl; lia|].
  rewrite length_take. lia.
Qed.

(** The step-2 query reads only: it leaves the tables as they are and
    returns at most one row.  A returned row shows the selected columns of a
    profile that is searching, active and not the caller's; no row comes
    back exactly when no profile qualifies. *)
Theorem candidate_query_spec offset userId db :
  ∃ rows,
    select_candidates None offset userId db = (db, Continue (Some rows, None)) ∧
    (length rows ≤ 1)%nat ∧
    (∀ c, c ∈ rows →
       pp_id c ≠ userId ∧
       ∃ p, profiles db !! pp_id c = Some p ∧
            is_searching p = true ∧ is_active p = true ∧
            c = mkPublic (pp_id c) (name p) (bio p) (age p) (location p)
                         (gender p) (interests p)) ∧
    (rows = [] ↔
     ∀ k p, profiles db !! k = Some p →
            is_searching p = true → is_active p = true → k = userId).
Proof.
  unfold select_candidates.
  set (rows := map_to_list (filter (candidate userId) (profiles db))).
  exists (to_public <$> limit1 offset rows).
  split; [done|]. split; [by rewrite length_fmap; apply limit1_length|]. split.
  - intros c ([k p] & -> & Hkp%limit1_subset)%list_elem_of_fmap.
    subst rows. apply elem_of_map_to_list in Hkp.
    apply map_lookup_filter_Some in Hkp as [Hlk (Hs & Ha & Hne)].
    cbn [fst snd] in Hs, Ha, Hne. cbn [pp_id to_public fst snd]. eauto 10.
  - split.
    + intros E%fmap_nil_inv%limit1_nil. subst rows.
      apply map_to_list_empty_iff in E.
      intros k p Hlk Hs Ha. destruct (decide (k = userId)) as [|Hne]; [done|].
      exfalso. by apply (map_empty_filter_1 _ _ E k p Hlk).
    + intros Hno. assert (rows = []) as ->; [|done]. subst rows.
      apply map_to_list_empty_iff, map_empty_filter_2.
      intros k p Hlk (Hs & Ha & Hne). cbn [fst snd] in Hs, Ha, Hne. eauto.
Qed.

(** ** Answers and what they tell *)

(** A [searching] answer is given only to the authenticated caller named in
    it, with status 200, when nobody else is both searching and active; the
    only write is the caller's own flag. *)
Theorem searching_means_nobody_waiting req env db db' r message userId :
  serve req env db = (db', r) →
  resp_body r = BodySearching message userId →
  resp_status r = 200%Z ∧
  authenticated req env userId ∧
  no_candidate userId db ∧
  db' = announce env userId db.
Proof.
  intros Hrun%serve_inv Hbody.
  destruct Hrun as [| | | | | |u Hm Ha H1 H2 Hc| |]; try discriminate Hbody.
  injection Hbody as _ <-. apply chosen_none in Hc. done.
Qed.

Lemma searching_means_nobody_waiting_witness :
  let run := serve Sample.post (Sample.env "U1") Sample.alone in
  resp_status run.2 = 200%Z ∧
  authenticated Sample.post (Sample.env "U1") "U1" ∧
  no_candidate "U1" Sample.alone ∧
  run.1 = announce (Sample.env "U1") "U1" Sample.alone.
Proof.
  intros run.
  apply (searching_means_nobody_waiting Sample.post (Sample.env "U1") Sample.alone
           run.1 run.2 "Looking for your perfect match...").
  - apply surjective_pairing.
  - vm_compute. reflexivity.
Defined.

(** ** One invocation after another *)

Lemma no_candidate_announce env userId db :
  no_candidate userId db → no_candidate userId (announce env userId db).
Proof.
  intros Hno k p Hlk Hs Ha. destruct (decide (k = userId)) as [|Hne]; [done|].
  rewrite announce_other in Hlk by done. eauto.
Qed.

(** A caller who was told [searching], and whose profile is active, is the
    one the next caller gets: step 2 of any other user's invocation returns
    exactly that profile, and if the insert is accepted the answer is
    [matched] with it. *)
Theorem waiting_caller_is_found req1 env1 db db1 r1 message a p req2 env2 b :
  serve req1 env1 db = (db1, r1) →
  resp_body r1 = BodySearching message a →
  profiles db !! a = Some p →
  is_active p = true →
  method req2 ≠ "OPTIONS" →
  authenticated req2 env2 b →
  b ≠ a →
  updateError env2 = None →
  searchError env2 = None →
  let c := mkPublic a (name p) (bio p) (age p) (location p) (gender p) (interests p) in
  chosen env2 b db1 = Some c ∧
  (insert_fault env2 = None →
   check_insert (announce env2 b db1) (new_row env2 b c) = None →
   (serve req2 env2 db1).2 =
     json 200 (BodyMatched "Match found!" (uuid_generate_v4 env2) c 85
                 (timestamptz_out env2 (now_created env2)))).
Proof.
  intros Hrun%serve_inv Hbody Hp Hact Hm2 Ha2 Hne H1 H2 c.
  destruct Hrun as [| | | | | |u Hm Ha _ _ Hc| |]; try discriminate Hbody.
  injection Hbody as _ ->. apply chosen_none in Hc.
  assert (profiles (announce env1 a db) !! a =
          Some (handle_updated_at (db_now_step1 env1)
                  (set_is_searching true (now_step1 env1) p))) as Hrow
    by (by rewrite announce_caller, Hp).
  assert (chosen env2 b (announce env1 a db) = Some c) as Hchosen.
  { destruct (chosen env2 b (announce env1 a db)) as [c'|] eqn:E.
    - destruct (chosen_spec _ _ _ _ E) as (Hcb & q & Hq & Hs & Hq_act & Hc').
      assert (pp_id c' = a) as Hid.
      { destruct (decide (pp_id c' = a)) as [|Hca]; [done|].
        rewrite announce_other in Hq by done. eauto. }
      rewrite Hid, Hrow in Hq. injection Hq as <-.
      rewrite Hc', Hid. done.
    - apply chosen_none in E. exfalso. apply Hne. symmetry.
      by eapply (E a _ Hrow). }
  split; [done|]. intros H5 Hk.
  by rewrite (run_matched req2 env2 _ b Hm2 Ha2 H1 H2 c Hchosen H5 Hk).
Qed.

(** Scenario A, then Scenario B with the roles swapped. *)
Lemma waiting_caller_is_found_witness :
  let first := serve Sample.post (Sample.env "U1") Sample.alone in
  let c := mkPublic "U1" "one" (Some "hello") (Some 30%Z) None (Some "other") "[]" in
  chosen (Outage.later "U2") "U2" first.1 = Some c ∧
  (insert_fault (Outage.later "U2") = None →
   check_insert (announce (Outage.later "U2") "U2" first.1)
     (new_row (Outage.later "U2") "U2" c) = None →
   (serve Sample.post (Outage.later "U2") first.1).2 =
     json 200 (BodyMatched "Match found!" "m2" c 85 "t8+00:00")).
Proof.
  intros first.
  apply (waiting_caller_is_found Sample.post (Sample.env "U1") Sample.alone
           first.1 first.2 "Looking for your perfect match..." "U1"
           (Sample.profile "one" true false) Sample.post (Outage.later "U2") "U2").
  - apply surjective_pairing.
  - vm_compute. reflexivity.
  - vm_compute. reflexivity.
  - reflexivity.
  - discriminate.
  - exists "Bearer tok". split; reflexivity.
  - discriminate.
  - reflexivity.
  - reflexivity.
Defined.

(** After a [matched] answer whose step-6 write succeeded, neither of the
    two parties is returned by the step-2 query of any later invocation,
    until one of them asks again. *)
Theorem matched_parties_not_offered req env db db' r userId
    message match_id matchedUser matchScore createdAt env2 w c :
  authenticated req env userId →
  serve req env db = (db', r) →
  resp_body r = BodyMatched message match_id matchedUser matchScore createdAt →
  updateUsersError env = None →
  chosen env2 w db' = Some c →
  pp_id c ≠ userId ∧ pp_id c ≠ pp_id matchedUser.
Proof.
  intros Hauth Hrun Hbody H6 Hc.
  destruct (matched_inv _ _ _ _ _ _ _ _ _ _ Hrun Hbody) as (u & Hp & -> & _).
  destruct Hp as (_ & Ha & _ & _ & _ & _ & Hk).
  assert (u = userId) as -> by (eapply authenticated_unique; eauto).
  apply check_insert_accepts in Hk as (_ & _ & Hp1 & Hp2).
  cbn [new_row profile1_id profile2_id] in Hp1, Hp2.
  assert (has_profile (announce env userId db) userId = true ∧
          has_profile (announce env userId db) (pp_id matchedUser) = true) as [Hu Hm].
  { destruct (canonical_members userId (pp_id matchedUser)) as [[E1 E2]|[E1 E2]];
      rewrite E1 in Hp1; rewrite E2 in Hp2; done. }
  destruct (chosen_spec _ _ _ _ Hc) as (_ & q & Hq & Hs & _).
  split; intros E; rewrite E in Hq.
  - destruct (clear_flags_party env userId (pp_id matchedUser)
                (mkDB (profiles (announce env userId db))
                      (matches db ++ [newMatch_row env userId matchedUser]))
                userId H6 (or_introl eq_refl) Hu) as (q' & Hq' & Hf).
    congruence.
  - destruct (clear_flags_party env userId (pp_id matchedUser)
                (mkDB (profiles (announce env userId db))
                      (matches db ++ [newMatch_row env userId matchedUser]))
                (pp_id matchedUser) H6 (or_intror eq_refl) Hm) as (q' & Hq' & Hf).
    congruence.
Qed.

(** [U1] is paired with [U3]; [U2], still waiting, is the one a later
    caller gets. *)
Lemma matched_parties_not_offered_witness :
  let first := serve Sample.post (Sample.env "U1") Outage.crowd in
  let c := to_public ("U2", Sample.profile "two" true true) in
  pp_id c ≠ "U1" ∧ pp_id c ≠ "U3".
Proof.
  intros first c.
  apply (matched_parties_not_offered Sample.post (Sample.env "U1") Outage.crowd
           first.1 first.2 "U1" "Match found!" "m1"
           (to_public ("U3", Sample.profile "three" true true)) 85 "t5+00:00"
           (Outage.later "U3") "U3" c).
  - exists "Bearer tok". split; reflexivity.
  - apply surjective_pairing.
  - vm_compute. reflexivity.
  - reflexivity.
  - vm_compute. reflexivity.
Defined.

(** Asking again while nobody else is waiting changes nothing but the
    caller's timestamp: the answer is [searching] again, [matches] is as
    before and every [is_searching] flag is as the first call left it. *)
Theorem searching_again_while_alone req env db db1 r1 message userId env2 :
  serve req env db = (db1, r1) →
  resp_body r1 = BodySearching message userId →
  authenticated req env2 userId →
  updateError env2 = None →
  searchError env2 = None →
  ∃ db2,
    serve req env2 db1 =
      (db2, json 200 (BodySearching "Looking for your perfect match..." userId)) ∧
    matches db2 = matches db ∧
    ∀ k, is_searching <$> profiles db2 !! k = is_searching <$> profiles db1 !! k.
Proof.
  intros Hrun%serve_inv Hbody Ha2 H1 H2.
  destruct Hrun as [| | | | | |u Hm Ha _ _ Hc| |]; try discriminate Hbody.
  injection Hbody as _ ->. apply chosen_none in Hc.
  exists (announce env2 userId (announce env userId db)).
  split; [|split; [done|]].
  - apply run_searching; try done. by apply no_candidate_announce.
  - intros k. destruct (decide (k = userId)) as [->|Hk].
    + rewrite (announce_caller env2), (announce_caller env).
      by destruct (profiles db !! userId).
    + by rewrite announce_other.
Qed.

Lemma searching_again_while_alone_witness :
  let first := serve Sample.post (Sample.env "U1") Sample.alone in
  ∃ db2,
    serve Sample.post (Outage.later "U1") first.1 =
      (db2, json 200 (BodySearching "Looking for your perfect match..." "U1")) ∧
    matches db2 = matches Sample.alone ∧
    ∀ k, is_searching <$> profiles db2 !! k = is_searching <$> profiles first.1 !! k.
Proof.
  intros first.
  apply (searching_again_while_alone Sample.post (Sample.env "U1") Sample.alone
           first.1 first.2 "Looking for your perfect match..." "U1").
  - apply surjective_pairing.
  - vm_compute. reflexivity.
  - exists "Bearer tok". split; reflexivity.
  - reflexivity.
  - reflexivity.
Defined.

(** ** The bearer token *)

Section Replace.

Local Open Scope string_scope.

Lemma strip_prefix_Some pat s rest : strip_prefix pat s = Some rest → s = pat ++ rest.
Proof.
  revert s. induction pat as [|a pat IH]; intros [|b s]; simpl;
    try (by intros [= <-]); try done.
  destruct (Ascii.eqb_spec a b) as [->|]; [|done].
  intros ->%IH. done.
Qed.

Lemma strip_prefix_app pat rest : strip_prefix pat (pat ++ rest) = Some rest.
Proof.
  induction pat as [|a pat IH]; simpl; [by destruct rest|].
  by rewrite Ascii.eqb_refl.
Qed.

Lemma strip_prefix_None pat s :
  strip_prefix pat s = None → ∀ post, s ≠ pat ++ post.
Proof. intros E post ->. by rewrite strip_prefix_app in E. Qed.

Lemma replace_unfold pat rep s :
  replace pat rep s =
  match strip_prefix pat s with
  | Some rest => rep ++ rest
  | None => match s with
            | EmptyString => EmptyString
            | String c s' => String c (replace pat rep s')
            end
  end.
Proof. by destruct s. Qed.

Lemma replace_at_start pat rep rest : replace pat rep (pat ++ rest) = rep ++ rest.
Proof. by rewrite replace_unfold, strip_prefix_app. Qed.

(** [replace] is the string's [replace] with a string pattern: if the
    pattern does not occur the string comes back unchanged; otherwise the
    occurrence that starts first is replaced, and only that one. *)
Theorem replace_first_occurrence pat rep s :
  (replace pat rep s = s ∧ ∀ pre post, s ≠ pre ++ pat ++ post) ∨
  (∃ pre post,
     s = pre ++ pat ++ post ∧
     replace pat rep s = pre ++ rep ++ post ∧
     ∀ pre' post', s = pre' ++ pat ++ post' → (String.length pre ≤ String.length pre')%nat).
Proof.
  induction s as [|c s IH]; rewrite replace_unfold.
  - destruct (strip_prefix pat "") as [rest|] eqn:E.
    + right. exists "", rest. apply strip_prefix_Some in E.
      split; [done|]. split; [done|]. intros; simpl; lia.
    + left. split; [done|]. intros [|] post Hs; [|done].
      by apply (strip_prefix_None _ _ E post).
  - destruct (strip_prefix pat (String c s)) as [rest|] eqn:E.
    + right. exists "", rest. apply strip_prefix_Some in E.
      split; [done|]. split; [done|]. intros; simpl; lia.
    + pose proof (strip_prefix_None _ _ E) as Hnot.
      destruct IH as [[Hid Hno]|(pre & post & Hs & Hr & Hmin)].
      * left. split; [by rewrite Hid|].
        intros [|c' pre] post Hs; [by eapply Hnot|].
        injection Hs as _ Hs. by eapply Hno.
      * right. exists (String c pre), post. simpl.
        split; [by rewrite Hs|]. split; [by rewrite Hr|].
        intros [|c' pre'] post' Hs'; [by apply Hnot in Hs'|].
        injection Hs' as _ Hs'. simpl. apply Hmin in Hs'. lia.
Qed.

Lemma replace_absent pat rep s :
  (∀ pre post, s ≠ pre ++ pat ++ post) → replace pat rep s = s.
Proof.
  induction s as [|c s IH]; intros Hno; rewrite replace_unfold.
  - destruct (strip_prefix pat "") as [rest|] eqn:E; [|done].
    apply strip_prefix_Some in E. by apply (Hno "" rest) in E.
  - destruct (strip_prefix pat (String c s)) as [rest|] eqn:E.
    + apply strip_prefix_Some in E. by apply (Hno "" rest) in E.
    + rewrite IH; [done|]. intros pre post Hs.
      apply (Hno (String c pre) post). simpl. by rewrite Hs.
Qed.

Lemma bearer_token_extracted token :
  replace "Bearer " "" ("Bearer " ++ token) = token.
Proof. apply (replace_at_start "Bearer " ""). Qed.

(** A header in which ["Bearer "] does not occur is passed to the identity
    service as it is: a bare token authenticates as well. *)
Theorem bare_token_passed_through req env userId authHeader :
  (∀ pre post, authHeader ≠ pre ++ "Bearer " ++ post) →
  authorization req = Some authHeader →
  getUser env authHeader = GetUserReturned (Some userId) None →
  authenticated req env userId.
Proof.
  intros Hno Hh Hg. exists authHeader. split; [done|].
  by rewrite replace_absent.
Qed.

Lemma bare_token_passed_through_witness :
  authenticated (mkRequest "POST" (Some "tok")) (Sample.env "U1") "U1".
Proof.
  apply (bare_token_passed_through _ _ _ "tok").
  - intros [|? [|? [|? [|? ?]]]] post; discriminate.
  - reflexivity.
  - reflexivity.
Defined.

End Replace.

(** * The unread counter of the notification hook *)

Module NotificationFacts.
Import Notifications.

Local Open Scope Z_scope.

Lemma hit_false_notin i (l : list Notification) :
  i ∉ map id l → hit i l = false.
Proof.
  unfold hit. induction l as [|n l IH]; [done|]. cbn [map existsb].
  intros Hn. apply not_elem_of_cons in Hn as [Hne Hn].
  rewrite IH by done.
  destruct (String.eqb_spec (id n) i); [congruence|done].
Qed.

Lemma hit_spec i (l : list Notification) :
  hit i l = true ↔ ∃ n, n ∈ l ∧ id n = i ∧ read n = false.
Proof.
  unfold hit. rewrite existsb_exists. split.
  - intros (n & Hn%list_elem_of_In & [E%String.eqb_eq Hr%negb_true_iff]%andb_true_iff).
    eauto.
  - intros (n & Hn & <- & Hr). exists n. split; [by apply list_elem_of_In|].
    by rewrite String.eqb_refl, Hr.
Qed.

Lemma hit_cnt i (l : list Notification) : hit i l = true → 1 ≤ Z.of_nat (cnt l).
Proof.
  intros (n & Hn & _ & Hr)%hit_spec. unfold cnt.
  assert (n ∈ List.filter (fun n => negb (read n)) l) as Hf
    by (apply list_elem_of_In, filter_In; split;
        [by apply list_elem_of_In|by rewrite Hr]).
  destruct (List.filter _ l); [by apply not_elem_of_nil in Hf|].
  cbn [length]. lia.
Qed.

Lemma mark_ids i (l : list Notification) :
  map id (map (fun n => if String.eqb (id n) i then set_read n else n) l) = map id l.
Proof.
  induction l as [|n l IH]; [done|]. cbn [map]. rewrite IH.
  by destruct (String.eqb (id n) i).
Qed.

Lemma mark_other i (l : list Notification) :
  i ∉ map id l →
  map (fun n => if String.eqb (id n) i then set_read n else n) l = l.
Proof.
  induction l as [|n l IH]; [done|]. cbn [map].
  intros Hn. apply not_elem_of_cons in Hn as [Hne Hn]. rewrite IH by done.
  destruct (String.eqb_spec (id n) i); [congruence|done].
Qed.

Lemma mark_cnt i (l : list Notification) :
  NoDup (map id l) →
  Z.of_nat (cnt (map (fun n => if String.eqb (id n) i then set_read n else n) l))
  = Z.of_nat (cnt l) - (if hit i l then 1 else 0).
Proof.
  unfold cnt, hit.
  induction l as [|n l IH]; [done|]. cbn [map]. intros [Hn Hl]%NoDup_cons.
  destruct (String.eqb_spec (id n) i) as [E|E].
  - rewrite mark_other by congruence. cbn [List.filter existsb set_read read].
    rewrite (proj2 (String.eqb_eq _ _) E).
    pose proof (hit_false_notin i l ltac:(congruence)) as Hh. unfold hit in Hh.
    rewrite Hh. destruct (read n); cbn [negb andb orb length]; lia.
  - cbn [List.filter existsb]. rewrite (proj2 (String.eqb_neq _ _) E).
    cbn [andb orb]. specialize (IH Hl).
    destruct (read n); cbn [negb length]; lia.
Qed.

Lemma filter_other i (l : list Notification) :
  i ∉ map id l → List.filter (fun n => negb (String.eqb (id n) i)) l = l.
Proof.
  induction l as [|n l IH]; [done|]. cbn [map List.filter].
  intros Hn. apply not_elem_of_cons in Hn as [Hne Hn]. rewrite IH by done.
  destruct (String.eqb_spec (id n) i); [congruence|done].
Qed.

Lemma delete_ids i (l : list Notification) :
  NoDup (map id l) →
  NoDup (map id (List.filter (fun n => negb (String.eqb (id n) i)) l)).
Proof.
  induction l as [|n l IH]; [done|]. cbn [map List.filter].
  intros [Hn Hl]%NoDup_cons.
  destruct (String.eqb (id n) i); cbn [negb]; [by apply IH|].
  cbn [map]. apply NoDup_cons. split; [|by apply IH].
  intros (m & E & Hm%list_elem_of_In%filter_In)%(list_elem_of_fmap (B:=string)).
  apply Hn. apply (list_elem_of_fmap (B:=string)). exists m.
  split; [done|]. apply list_elem_of_In. tauto.
Qed.

(** Deleting: the element found, if any, decides the counter; the list
    loses that element. *)
Lemma delete_cnt i (l : list Notification) :
  NoDup (map id l) →
  Z.of_nat (cnt (List.filter (fun n => negb (String.eqb (id n) i)) l))
  = Z.of_nat (cnt l) - (if hit i l then 1 else 0) ∧
  match List.find (fun n => String.eqb (id n) i) l with
  | Some n => negb (read n)
  | None => false
  end = hit i l.
Proof.
  unfold cnt, hit.
  induction l as [|n l IH]; [done|]. cbn [map]. intros [Hn Hl]%NoDup_cons.
  cbn [List.filter List.find existsb].
  destruct (String.eqb_spec (id n) i) as [E|E]; cbn [negb andb orb].
  - pose proof (hit_false_notin i l ltac:(congruence)) as Hh. unfold hit in Hh.
    rewrite filter_other, Hh by congruence.
    destruct (read n); cbn [negb List.filter length orb]; split; (lia || done).
  - destruct (IH Hl) as [IH1 IH2]. split; [|done].
    cbn [List.filter]. destruct (read n); cbn [negb length]; lia.
Qed.

Lemma step_ids st a :
  match a with Add now _ => pretty now ∉ ids st | _ => True end →
  NoDup (ids st) → NoDup (ids (step st a)).
Proof.
  intros Hfresh Hnd. unfold ids in *.
  destruct a as [i| |i|now d]; cbn [step].
  - unfold markAsRead. cbn [notifications]. by rewrite mark_ids.
  - unfold markAllAsRead. cbn [notifications].
    assert (map id (map set_read (notifications st)) = map id (notifications st))
      as ->; [|done].
    rewrite map_map. by apply map_ext.
  - by apply delete_ids.
  - unfold addNotification. cbn [notifications map id]. by apply NoDup_cons.
Qed.

Lemma step_counts st a :
  NoDup (ids st) →
  unread (step st a) =
    match a with
    | MarkAsRead i | Delete i =>
        unread st - (if hit i (notifications st) then 1 else 0)
    | MarkAllAsRead => 0
    | Add _ d => unread st + (if d_read d then 0 else 1)
    end ∧
  unreadCount (step st a) =
    match a with
    | MarkAsRead i => Z.max 0 (unreadCount st - 1)
    | Delete i =>
        if hit i (notifications st) then Z.max 0 (unreadCount st - 1)
        else unreadCount st
    | MarkAllAsRead => 0
    | Add _ d => unreadCount st + (if d_read d then 0 else 1)
    end.
Proof.
  intros Hnd. unfold unread, ids in *.
  destruct a as [i| |i|now d]; cbn [step].
  - unfold markAsRead. cbn [notifications unreadCount]. by rewrite mark_cnt.
  - unfold markAllAsRead. cbn [notifications unreadCount]. split; [|done].
    unfold cnt. clear Hnd. induction (notifications st) as [|n l IH]; [done|].
    cbn [map List.filter set_read read negb]. exact IH.
  - unfold deleteNotification. cbn [notifications unreadCount].
    destruct (delete_cnt i (notifications st) Hnd) as [-> <-]. split; [done|].
    destruct (List.find _ (notifications st)) as [n|]; [|done].
    by destruct (read n).
  - unfold addNotification, cnt.
    cbn [notifications unreadCount read List.filter].
    destruct (d_read d); cbn [negb length]; split; lia.
Qed.

Lemma step_bounded st a :
  match a with Add now _ => pretty now ∉ ids st | _ => True end →
  bounded st → bounded (step st a).
Proof.
  intros Hfresh [Hnd Hb]. split; [by apply step_ids|].
  destruct (step_counts st a Hnd) as [-> ->].
  destruct a as [i| |i|now d].
  - destruct (hit i (notifications st)) eqn:Hh; [|lia].
    apply hit_cnt in Hh. unfold unread in *. lia.
  - lia.
  - destruct (hit i (notifications st)) eqn:Hh; [|lia].
    apply hit_cnt in Hh. unfold unread in *. lia.
  - destruct (d_read d); lia.
Qed.

Lemma step_exact st a :
  match a with
  | Add now _ => pretty now ∉ ids st
  | MarkAsRead i => ∃ n, n ∈ notifications st ∧ id n = i ∧ read n = false
  | _ => True
  end →
  exact st → exact (step st a).
Proof.
  intros Hcond [Hnd Hb]. split.
  - apply step_ids; [|done]. by destruct a.
  - destruct (step_counts st a Hnd) as [-> ->].
    destruct a as [i| |i|now d]; [| done | |lia].
    + apply hit_spec in Hcond as Hh. rewrite Hh.
      apply hit_cnt in Hh. unfold unread in *. lia.
    + destruct (hit i (notifications st)) eqn:Hh; [|lia].
      apply hit_cnt in Hh. unfold unread in *. lia.
Qed.

(** From the empty state, as long as every added notification gets an id
    that is not in the list, the ids stay distinct and the counter is never
    negative and never above the number of unread notifications. *)
Theorem badge_never_overcounts actions :
  fresh_adds actions initial →
  NoDup (ids (run actions initial)) ∧
  0 ≤ unreadCount (run actions initial) ≤ unread (run actions initial).
Proof.
  assert (bounded initial) as Hinit by (split; [constructor|done]).
  revert Hinit. generalize initial.
  induction actions as [|a actions IH]; intros st Hb Hfresh; [done|].
  destruct Hfresh as [Ha Hrest]. cbn [run fold_left].
  apply IH; [|done]. by apply step_bounded.
Qed.

Lemma badge_never_overcounts_witness :
  let actions := [Add 1000 (draft "a" false); MarkAsRead "1000"; MarkAsRead "1000";
                  Add 1001 (draft "b" false); Delete "1000"] in
  NoDup (ids (run actions initial)) ∧
  0 ≤ unreadCount (run actions initial) ≤ unread (run actions initial).
Proof.
  intros actions. apply (badge_never_overcounts actions).
  unfold actions. cbn [fresh_adds]. repeat split; try done;
    apply (bool_decide_unpack _); vm_compute; exact I.
Defined.

(** If moreover every [markAsRead] names a notification that is in the list
    and unread, the counter is exactly the number of unread notifications. *)
Theorem badge_exact_when_marks_hit actions :
  fresh_adds actions initial →
  marks_hit actions initial →
  unreadCount (run actions initial) = unread (run actions initial).
Proof.
  assert (exact initial) as Hinit by (split; [constructor|done]).
  revert Hinit. generalize initial.
  induction actions as [|a actions IH]; intros st Hb Hfresh Hhit; [by destruct Hb|].
  destruct Hfresh as [Ha Hrest]. destruct Hhit as [Hm Hmrest]. cbn [run fold_left].
  apply IH; [|done|done]. apply step_exact; [|done]. by destruct a.
Qed.

Lemma badge_exact_when_marks_hit_witness :
  let actions := [Add 1000 (draft "a" false); Add 1001 (draft "b" false);
                  MarkAsRead "1000"; Delete "1001"; Add 1002 (draft "c" true)] in
  unreadCount (run actions initial) = unread (run actions initial).
Proof.
  intros actions. apply (badge_exact_when_marks_hit actions).
  - unfold actions. cbn [fresh_adds]. repeat split; try done;
      apply (bool_decide_unpack _); vm_compute; exact I.
  - unfold actions. cbn [marks_hit]. repeat split; try done.
    vm_compute. eexists.
    split; [apply list_elem_of_further, list_elem_of_here|split; reflexivity].
Defined.

(** [markAsRead] lowers the counter whether or not anything became read:
    on an id that is absent or already read, the list keeps its unread
    notifications and a counter that was exact and positive ends one below
    their number. *)
Theorem mark_read_miss_undercounts i st :
  NoDup (ids st) →
  unreadCount st = unread st →
  0 < unreadCount st →
  (∀ n, n ∈ notifications st → id n = i → read n = true) →
  unread (markAsRead i st) = unread st ∧
  unreadCount (markAsRead i st) = unread st - 1.
Proof.
  intros Hnd Hexact Hpos Hmiss.
  destruct (step_counts st (MarkAsRead i) Hnd) as [Hu Hc]. cbn [step] in Hu, Hc.
  assert (hit i (notifications st) = false) as Hh.
  { destruct (hit i (notifications st)) eqn:E; [|done].
    apply hit_spec in E as (n & Hn & Hi & Hr). rewrite (Hmiss n Hn Hi) in Hr. done. }
  rewrite Hh in Hu. rewrite Hu, Hc. lia.
Qed.

(** Marking the same notification twice. *)
Lemma mark_read_miss_undercounts_witness :
  let st := run [Add 1000 (draft "a" false); Add 1001 (draft "b" false);
                 MarkAsRead "1000"] initial in
  unread (markAsRead "1000" st) = unread st ∧
  unreadCount (markAsRead "1000" st) = unread st - 1.
Proof.
  intros st. apply (mark_read_miss_undercounts "1000" st).
  - vm_compute. apply NoDup_cons. split; [|apply NoDup_singleton].
    intros E%list_elem_of_singleton. discriminate E.
  - reflexivity.
  - reflexivity.
  - intros n Hn Hi. vm_compute in Hn.
    inversion Hn as [|? ? ? Hn']; subst; [discriminate Hi|].
    inversion Hn' as [|? ? ? Hn'']; subst; [reflexivity|]. inversion Hn''.
Defined.

End NotificationFacts.

(** * The onboarding form *)

Module OnboardingFacts.
Import Onboarding.

Local Open Scope string_scope.

Lemma has_text_cons c r : has_text (c :: r) ↔ is_space c = false ∨ has_text r.
Proof.
  unfold has_text. split.
  - intros (d & [->|Hd]%elem_of_cons & Hs); [by left|right; eauto].
  - intros [Hc|(d & Hd & Hs)].
    + exists c. split; [apply list_elem_of_here|done].
    + exists d. split; [by apply list_elem_of_further|done].
Qed.

Lemma has_text_empty : ¬ has_text [].
Proof. by intros (c & Hc%elem_of_nil & _). Qed.

Lemma trimEnd_text s : trimEnd s ≠ [] ↔ has_text s.
Proof.
  induction s as [|c r IH]; [split; [done|by intros ?%has_text_empty]|].
  rewrite has_text_cons. cbn [trimEnd].
  destruct (trimEnd r) as [|c' r'] eqn:E.
  - destruct (is_space c); split; try done.
    + intros [|Hr%IH]; done.
    + by left.
  - split; [|done]. intros _. right. by apply IH.
Qed.

Lemma trimStart_text s : has_text (trimStart s) ↔ has_text s.
Proof.
  induction s as [|c r IH]; [done|]. cbn [trimStart].
  destruct (is_space c) eqn:E; [|done].
  rewrite IH, has_text_cons. split; [by right|]. by intros [|?]; [congruence|].
Qed.

Lemma missing_text s : missing s = false ↔ has_text s.
Proof.
  unfold missing, trim.
  rewrite orb_false_iff, negb_false_iff, Nat.eqb_neq.
  rewrite <- trimStart_text, <- trimEnd_text. split.
  - intros [_ Hl] E. by rewrite E in Hl.
  - intros Ht. split.
    + destruct s; [done|done].
    + by destruct (trimEnd (trimStart s)).
Qed.

Lemma includes_spec l x : includes l x = true ↔ x ∈ l.
Proof.
  unfold includes. rewrite existsb_exists. split.
  - by intros (y & Hy%list_elem_of_In & ->%String.eqb_eq).
  - intros Hx. exists x. split; [by apply list_elem_of_In|apply String.eqb_refl].
Qed.

Lemma photo_errors_nil label f : photo_errors label f = [] ↔ photo_ok f.
Proof.
  unfold photo_errors, photo_ok, maxSize.
  rewrite <- includes_spec.
  destruct (N.ltb_spec (5 * 1024 * 1024) (size f)) as [Hs|Hs];
    destruct (includes allowedTypes (type f)); cbn [negb app];
    split; try done; intros [? ?]; try done; lia.
Qed.

Lemma interest_errors_nil (g : nat → string) (l : list File) :
  concat (imap (fun index photo => photo_errors (g index) photo) l) = []
  ↔ Forall photo_ok l.
Proof.
  revert g. induction l as [|f l IH]; intros g; [done|].
  rewrite imap_cons, Forall_cons. cbn [concat]. split.
  - intros [H1 H2]%app_eq_nil. split; [by apply photo_errors_nil in H1|].
    by apply (IH (g ∘ S)).
  - intros [H1 H2]. apply (photo_errors_nil (g 0%nat)) in H1.
    apply (IH (g ∘ S)) in H2. rewrite H1. exact H2.
Qed.

Lemma all_digits_spec s : all_digits s = true ↔ Forall (fun c => is_digit c = true) s.
Proof.
  unfold all_digits. induction s as [|c r IH]; [done|].
  cbn [forallb]. rewrite andb_true_iff, Forall_cons, IH. done.
Qed.

Lemma phone_test_spec s : phoneRegex_test s = true ↔ phone_ok s.
Proof.
  unfold phoneRegex_test, phone_ok. split.
  - destruct s as [|c r]; [done|].
    destruct (N.eqb_spec c (unit_of "+")) as [->|Hc].
    + destruct r as [|d ds]; [done|].
      intros [[Hd Hds%all_digits_spec]%andb_true_iff Hl%Nat.leb_le]%andb_true_iff.
      exists (units "+"), d, ds. auto.
    + intros [[Hd Hds%all_digits_spec]%andb_true_iff Hl%Nat.leb_le]%andb_true_iff.
      exists [], c, r. auto.
  - intros (sign & d & ds & -> & [->| ->] & Hd & Hds%all_digits_spec & Hl%Nat.leb_le).
    + cbn [app].
      destruct (N.eqb_spec d (unit_of "+")) as [->|_]; [done|].
      by rewrite Hd, Hds, Hl.
    + change (units "+" ++ d :: ds)%list with (unit_of "+" :: d :: ds).
      cbn beta iota. rewrite N.eqb_refl. by rewrite Hd, Hds, Hl.
Qed.

(** The form is valid exactly when bio, location and situation each contain
    a code unit that is not white space, the bio has at most 500 code
    units, every photo is at most 5 MB and of an allowed type, there are at
    most five interest photos, and a phone number that is not blank
    consists, once white space, dashes and parentheses are removed, of an
    optional plus sign, a digit from 1 to 9 and up to fifteen more
    digits. *)
Theorem valid_iff_acceptable data :
  valid (validateOnboardingData data) = true ↔ acceptable data.
Proof.
  unfold validateOnboardingData, acceptable. cbn [valid].
  rewrite Nat.eqb_eq, length_zero_iff_nil.
  rewrite !app_nil.
  rewrite <- !missing_text, interest_errors_nil.
  assert ((if nonempty (bio data) && (500 <? length (bio data))%nat
           then ["Bio must be 500 characters or less"] else []) = []
          ↔ (length (bio data) ≤ 500)%nat) as ->.
  { destruct (bio data) as [|c r]; cbn [nonempty andb].
    - split; [simpl; lia|done].
    - destruct (Nat.ltb_spec 500 (length (c :: r))); split; try done; lia. }
  assert ((if (5 <? length (interestPhotos data))%nat
           then ["Maximum 5 interest photos allowed"] else []) = []
          ↔ (length (interestPhotos data) ≤ 5)%nat) as ->.
  { destruct (Nat.ltb_spec 5 (length (interestPhotos data))); split; try done; lia. }
  assert (match profilePhoto data with
          | Some f => photo_errors "Profile photo" f
          | None => []
          end = [] ↔ ∀ f, profilePhoto data = Some f → photo_ok f) as ->.
  { destruct (profilePhoto data) as [f|]; [|done].
    rewrite photo_errors_nil. split; [by intros ? ? [= <-]|auto]. }
  assert (match phone data with
          | Some p =>
              if nonempty p && (0 <? length (trim p))%nat
              then if negb (phoneRegex_test (strip_phone p))
                   then ["Please enter a valid phone number"] else []
              else []
          | None => []
          end = [] ↔
          ∀ p, phone data = Some p → has_text p → phone_ok (strip_phone p)) as ->.
  { destruct (phone data) as [p|]; [|done].
    assert (nonempty p && (0 <? length (trim p))%nat = negb (missing p)) as ->.
    { unfold missing. rewrite negb_orb, negb_involutive. f_equal.
      by destruct (length (trim p)). }
    pose proof (missing_text p) as Hm. pose proof (phone_test_spec (strip_phone p)) as Ht.
    destruct (missing p), (phoneRegex_test (strip_phone p)); cbn [negb];
      split; try done.
    - intros _ ? [= <-] ?%Hm. done.
    - intros _ ? [= <-] ?%Hm. done.
    - intros _ ? [= <-] _. by apply Ht.
    - intros H. specialize (H p eq_refl (proj1 Hm eq_refl)). apply Ht in H. done. }
  repeat (destruct (missing _)); split; intros ?; destruct_and?; try done.
Qed.

Example sample_form_is_valid :
  validateOnboardingData sample = mkValidation true [].
Proof. vm_compute. reflexivity. Qed.

(** White space beyond Latin-1 counts as white space: a bio that is one EM
    SPACE is missing. *)
Example em_space_bio_is_missing :
  validateOnboardingData blank_bio = mkValidation false ["Bio is required"].
Proof. vm_compute. reflexivity. Qed.

Example blank_form_errors :
  validateOnboardingData
    (mkData (units "   ") (Some (units "0123")) [] (units "x") None
            [mkFile "a" 1 "text/plain"] [])
  = mkValidation false
      ["Bio is required"; "Location is required";
       "Interest photo 1 must be JPG, PNG, GIF, or WebP format";
       "Please enter a valid phone number"].
Proof. vm_compute. reflexivity. Qed.

(** ** Numbers in messages and file names *)

Lemma pretty_go_digits x s : decimal s = true → decimal (pretty_N_go x s) = true.
Proof.
  revert s. induction (N.lt_wf_0 x) as [x _ IH]; intros s Hs.
  assert (x = 0 ∨ 0 < x)%N as [->|Hx] by lia; [by rewrite pretty_N_go_0|].
  rewrite pretty_N_go_step by done. apply IH; [by apply N.div_lt|].
  cbn [decimal]. rewrite Hs, andb_true_r.
  unfold pretty_N_char. by repeat case_match.
Qed.

Lemma pretty_N_digits (n : N) : decimal (pretty n) = true.
Proof.
  unfold pretty, pretty_N. destruct (decide (n = 0%N)); [done|].
  by apply pretty_go_digits.
Qed.

Lemma pretty_nat_digits (n : nat) : decimal (pretty n) = true.
Proof. apply pretty_N_digits. Qed.

(** A run of digits is delimited by the first character that is not one. *)
Lemma digits_prefix_unique a b c c' x y :
  decimal a = true → decimal b = true →
  decimal_digit c = false → decimal_digit c' = false →
  a ++ String c x = b ++ String c' y →
  a = b ∧ c = c' ∧ x = y.
Proof.
  revert b. induction a as [|d a IH]; intros [|e b] Ha Hb Hc Hc'; cbn [String.append].
  - by intros [= -> ->].
  - intros [= -> _]. cbn [decimal] in Hb. apply andb_true_iff in Hb as [Hb _].
    congruence.
  - intros [= <- _]. cbn [decimal] in Ha. apply andb_true_iff in Ha as [Ha _].
    congruence.
  - cbn [decimal] in Ha, Hb.
    apply andb_true_iff in Ha as [_ Ha]. apply andb_true_iff in Hb as [_ Hb].
    intros [= -> E]. destruct (IH b Ha Hb Hc Hc' E) as (-> & -> & ->). done.
Qed.

Lemma append_inv_head a x y : a ++ x = a ++ y → x = y.
Proof. induction a as [|c a IH]; [done|]. cbn [String.append]. by intros [= ?%IH]. Qed.

(** ** The name under which a photo is uploaded *)

Lemma split_dot_last s :
  ∃ ext,
    last (split_dot s) = Some ext ∧
    (∀ pre post, ext ≠ pre ++ String "." post) ∧
    (split_dot s = [ext] ∧ s = ext ∨
     (2 ≤ length (split_dot s))%nat ∧ ∃ pre, s = pre ++ String "." ext).
Proof.
  induction s as [|c r (ext & Hlast & Hnodot & Hshape)].
  - exists "". split; [done|]. split; [by intros [|? ?] ?|by left].
  - cbn [split_dot]. destruct (Ascii.eqb_spec c ".") as [->|Hc].
    + exists ext. split; [|split; [done|right]].
      * destruct (split_dot r); [done|]. by rewrite last_cons, Hlast.
      * split; [destruct Hshape as [[-> _]|[? _]]; cbn [length]; lia|].
        destruct Hshape as [[_ ->]|[_ [pre ->]]]; [by exists ""|].
        by exists (String "." pre).
    + destruct Hshape as [[-> ->]|[Hlen [pre ->]]].
      * exists (String c ext). split; [done|]. split; [|by left].
        intros [|c' pre] post; [by intros [= -> _]|].
        intros [= _ E]. by eapply Hnodot.
      * exists ext. destruct (split_dot (pre ++ String "." ext)) as [|p [|p' ps]];
          cbn [length] in Hlen; try lia.
        split; [exact Hlast|].
        split; [done|]. right. split; [cbn [length]; lia|].
        by exists (String c pre).
Qed.

Lemma generateFileName_interest now userId file (i : nat) :
  generateFileName now userId file interest (Some i)
  = userId ++ "/interest-" ++ pretty i ++ "-" ++ pretty now ++ "."
      ++ interpolate (last (split_dot (file_name file))).
Proof. reflexivity. Qed.

Lemma generateFileName_profile now userId file index :
  generateFileName now userId file profile index
  = userId ++ "/profile-" ++ pretty now ++ "."
      ++ interpolate (last (split_dot (file_name file))).
Proof. reflexivity. Qed.

(** For two different positions the names of two interest photos differ,
    whatever the files and the clock readings are; and they differ from the
    name of the profile photo.  In a name, what follows the last dot is the
    part of the file's own name after its last dot, or that whole name if
    it has no dot. *)
Theorem upload_names_distinct userId now now' now0 file file' file0 (i j : nat) :
  i ≠ j →
  generateFileName now userId file interest (Some i)
    ≠ generateFileName now' userId file' interest (Some j) ∧
  generateFileName now0 userId file0 profile None
    ≠ generateFileName now userId file interest (Some i) ∧
  ∃ ext,
    after_last_dot (file_name file) ext ∧
    generateFileName now userId file interest (Some i)
      = userId ++ "/interest-" ++ pretty i ++ "-" ++ pretty now ++ "." ++ ext.
Proof.
  intros Hij.
  rewrite !generateFileName_interest, generateFileName_profile.
  split; [|split].
  - intros E%append_inv_head%(append_inv_head "/interest-").
    apply digits_prefix_unique in E as (E%(inj pretty) & _);
      auto using pretty_nat_digits.
  - intros E%append_inv_head. discriminate E.
  - destruct (split_dot_last (file_name file)) as (ext & -> & Hnodot & Hshape).
    exists ext. split; [|done]. split; [done|].
    destruct Hshape as [[_ ->]|[_ [pre ->]]]; eauto.
Qed.

Lemma upload_names_distinct_witness :
  generateFileName 1700000000000 "u-1" (mkFile "a.b.JPG" 10 "image/jpeg") interest (Some 1%nat)
    ≠ generateFileName 1700000000000 "u-1" (mkFile "a.b.JPG" 10 "image/jpeg") interest
        (Some 2%nat) ∧
  generateFileName 1700000000000 "u-1" (mkFile "me" 10 "image/png") profile None
    ≠ generateFileName 1700000000000 "u-1" (mkFile "a.b.JPG" 10 "image/jpeg") interest
        (Some 1%nat) ∧
  ∃ ext,
    after_last_dot "a.b.JPG" ext ∧
    generateFileName 1700000000000 "u-1" (mkFile "a.b.JPG" 10 "image/jpeg") interest
      (Some 1%nat)
      = "u-1" ++ "/interest-" ++ pretty 1%nat ++ "-" ++ pretty 1700000000000%N ++ "." ++ ext.
Proof.
  apply (upload_names_distinct "u-1" 1700000000000 1700000000000 1700000000000
           (mkFile "a.b.JPG" 10 "image/jpeg") (mkFile "a.b.JPG" 10 "image/jpeg")
           (mkFile "me" 10 "image/png") 1 2).
  discriminate.
Defined.

(** ** Which photo a message is about *)

Lemma photo_errors_elem label f m :
  m ∈ photo_errors label f ↔
  (m = label ++ " must be 5MB or smaller" ∧ (maxSize < size f)%N) ∨
  (m = label ++ " must be JPG, PNG, GIF, or WebP format" ∧
   includes allowedTypes (type f) = false).
Proof.
  unfold photo_errors. rewrite elem_of_app.
  destruct (N.ltb_spec maxSize (size f)) as [Hs|Hs];
    destruct (includes allowedTypes (type f)); cbn [negb];
    rewrite ?list_elem_of_singleton, ?elem_of_nil; split;
    intros [H|H]; destruct_and?; auto; try done; lia.
Qed.

Lemma interest_errors_elem (g : nat → string) (l : list File) m :
  m ∈ concat (imap (fun index photo => photo_errors (g index) photo) l) ↔
  ∃ j p, l !! j = Some p ∧ m ∈ photo_errors (g j) p.
Proof.
  revert g. induction l as [|f l IH]; intros g.
  - cbn. rewrite elem_of_nil. split; [done|]. by intros (j & p & Hj & _).
  - rewrite imap_cons. cbn [concat]. rewrite elem_of_app.
    rewrite (IH (g ∘ S)). split.
    + intros [Hm|(j & p & Hj & Hm)]; [by exists 0%nat, f|by exists (S j), p].
    + intros ([|j] & p & Hj & Hm).
      * injection Hj as <-. by left.
      * right. by exists j, p.
Qed.

Lemma interest_label_head x : ∃ t, "Interest photo " ++ x = String "I" t.
Proof. by eexists. Qed.

(** The message "Interest photo k must be 5MB or smaller" is among the
    errors exactly when the photo at position k (counted from 1) is larger
    than 5 MB. *)
Theorem oversized_photo_is_named data (i : nat) f :
  interestPhotos data !! i = Some f →
  ("Interest photo " ++ pretty (i + 1)%nat ++ " must be 5MB or smaller")
    ∈ errors (validateOnboardingData data)
  ↔ (maxSize < size f)%N.
Proof.
  intros Hi. unfold validateOnboardingData. cbn [errors].
  set (msg := "Interest photo " ++ pretty (i + 1)%nat ++ " must be 5MB or smaller").
  assert (∀ (b : bool) (m : string), (∀ t, m ≠ String "I" t) →
            ¬ msg ∈ (if b then [m] else [])) as Hfixed.
  { intros b m Hm Hin. destruct b; [|by apply elem_of_nil in Hin].
    apply list_elem_of_singleton in Hin. by eapply Hm. }
  rewrite !elem_of_app, interest_errors_elem. split.
  - intros [H|[H|[H|[H|[H|[H|[H|H]]]]]]].
    1-4, 6: by apply Hfixed in H.
    + destruct (profilePhoto data) as [f0|]; [|by apply elem_of_nil in H].
      apply photo_errors_elem in H as [[H _]|[H _]]; discriminate H.
    + destruct H as (j & p & Hj & [[H Hbig]|[H _]]%photo_errors_elem).
      * apply (append_inv_head "Interest photo ") in H.
        apply digits_prefix_unique in H as (H%(inj pretty) & _);
          auto using pretty_nat_digits.
        assert (i = j) as -> by lia. congruence.
      * apply (append_inv_head "Interest photo ") in H.
        apply digits_prefix_unique in H as (_ & _ & H);
          auto using pretty_nat_digits. discriminate H.
    + destruct (phone data) as [p|]; [|by apply elem_of_nil in H].
      destruct (nonempty p && _); [|by apply elem_of_nil in H].
      by apply Hfixed in H.
  - intros Hbig. do 6 right. left. exists i, f. split; [done|].
    apply photo_errors_elem. by left.
Qed.

Lemma oversized_photo_is_named_witness :
  ("Interest photo " ++ pretty (1 + 1)%nat ++ " must be 5MB or smaller")
    ∈ errors (validateOnboardingData
                (mkData (units "hi") None (units "Lisbon") (units "single") None
                        [mkFile "a.png" 10 "image/png";
                         mkFile "b.png" 5242881 "image/png"] []))
  ↔ (maxSize < 5242881)%N.
Proof.
  apply (oversized_photo_is_named
           (mkData (units "hi") None (units "Lisbon") (units "single") None
                   [mkFile "a.png" 10 "image/png"; mkFile "b.png" 5242881 "image/png"] [])
           1 (mkFile "b.png" 5242881 "image/png")).
  reflexivity.
Defined.

End OnboardingFacts.

(** * Submitting the onboarding form *)

Module SubmissionFacts.
Import Onboarding Submission.

Local Open Scope list_scope.



Lemma uploadPhoto_run env file fileName st :
  uploadPhoto env file fileName st
  = (record (Upload fileName file) st,
     (uploadPhoto env file fileName (mkState [] 0)).2).
Proof. unfold uploadPhoto. by destruct (upload env fileName file). Qed.

Lemma savePhoto_run env profileId photoUrl kind isPrimary uploadOrder st :
  let row := mkPhotoRow profileId photoUrl kind isPrimary uploadOrder in
  ∃ r, savePhotoToDatabase env profileId photoUrl kind isPrimary uploadOrder st
       = (record (InsertPhoto row) st, r) ∧
       (r.1 = true ↔ answered_ok env (InsertPhoto row)).
Proof.
  intros row. unfold savePhotoToDatabase. fold row. cbn [answered_ok].
  destruct (insert_photo env row); eexists; (split; [done|]); by cbn.
Qed.



Lemma getQuestionIds_run env st :
  (getQuestionIds env st).1 = record SelectQuestions st.
Proof. unfold getQuestionIds. by destruct (select_questions env). Qed.








(** The bucket refuses the second interest photo: three uploads, nothing
    in the database, and the failure names the photo. *)
Example refused_upload_stops_submission :
  let run := submitOnboardingData bucket_full "u-1" form in
  run.2 = failed "Interest photo 2 upload failed: quota exceeded" ∧
  length (log run.1) = 3%nat ∧
  forallb is_upload (log run.1) = true.
Proof. vm_compute. repeat split; reflexivity. Qed.

(** ** The questionnaire *)

Lemma getQuestionIds_map env st :
  (getQuestionIds env st).2 = (getQuestionIds env (mkState [] 0)).2.
Proof. unfold getQuestionIds. by destruct (select_questions env). Qed.

Section Origin.

Context (env : Env) (userId : string) (data : OnboardingData).

Lemma record_origin op st :
  from_questionnaire env userId data op →
  sourced env userId data st → sourced env userId data (record op st).
Proof. intros Hop Hst. apply Forall_app. by repeat constructor. Qed.

Lemma upload_interest_origin photos i urls st :
  sourced env userId data st →
  sourced env userId data (upload_interest env userId photos i urls st).1.
Proof.
  revert i urls st. induction photos as [|photo rest IH]; intros i urls st Hst; [done|].
  cbn [upload_interest generate]. rewrite uploadPhoto_run.
  destruct (truthy_opt _); [by apply record_origin|].
  apply IH. by apply record_origin.
Qed.

Lemma save_interest_origin urls i st :
  sourced env userId data st →
  sourced env userId data (save_interest env userId urls i st).1.
Proof.
  revert i st. induction urls as [|url rest IH]; intros i st Hst; [done|].
  cbn [save_interest].
  destruct (savePhoto_run env userId url interest false (i + 1) st) as (r & -> & _).
  destruct (negb r.1); [by apply record_origin|].
  apply IH. by apply record_origin.
Qed.

Lemma saveAnswers_origin q qs st :
  questionnaire data = q :: qs →
  sourced env userId data st →
  sourced env userId data
    (saveAnswers env userId (q :: qs) (getQuestionIds env (mkState [] 0)).2 st).1.
Proof.
  intros Hq Hst. unfold saveAnswers.
  change (omap _ (q :: qs)) with
    (answers_for userId (q :: qs) (getQuestionIds env (mkState [] 0)).2).
  destruct (answers_for userId (q :: qs) _) as [|a answers] eqn:E; [done|].
  assert (sourced env userId data (record (InsertAnswers (a :: answers)) st)).
  { apply record_origin; [|done]. cbn [from_questionnaire]. by rewrite Hq, E. }
  by destruct (insert_answers env (a :: answers)).
Qed.

Lemma finish_origin st :
  sourced env userId data st → sourced env userId data (finish env userId data st).1.
Proof.
  intros Hst. unfold finish. set (updates := mkUpdates _ _ _ _ _).
  set (st1 := record (UpdateProfile userId updates) st).
  assert (sourced env userId data st1) as Hst1 by (by apply record_origin).
  destruct (update_profile env userId updates); try done.
  destruct (questionnaire data) as [|q qs] eqn:Hq; [done|].
  destruct (getQuestionIds env st1) as [st2 questionIds] eqn:Hget.
  assert (st2 = record SelectQuestions st1) as ->
    by (by rewrite <- (getQuestionIds_run env), Hget).
  assert (questionIds = (getQuestionIds env (mkState [] 0)).2) as ->
    by (by rewrite <- (getQuestionIds_map env st1), Hget).
  assert (sourced env userId data (record SelectQuestions st1)) as Hst2
    by (by apply record_origin).
  pose proof (saveAnswers_origin q qs _ Hq Hst2) as Hst3.
  destruct (saveAnswers env userId (q :: qs) _ _) as [st3 [okay err]].
  by destruct okay.
Qed.

Lemma save_photos_origin url urls st :
  sourced env userId data st →
  sourced env userId data (save_photos env userId data url urls st).1.
Proof.
  intros Hst. unfold save_photos.
  assert (∀ st', sourced env userId data st' →
            sourced env userId data
              (let (st, stop) := save_interest env userId urls 0 st' in
               match stop with
               | Some r => (st, r)
               | None => finish env userId data st
               end).1) as Hrest.
  { intros st' Hst'. pose proof (save_interest_origin urls 0 st' Hst') as H.
    destruct (save_interest env userId urls 0 st') as [st1 [r|]]; [done|].
    by apply finish_origin. }
  destruct (truthy_opt url); [|by apply Hrest].
  destruct (savePhoto_run env userId (default ""%string url) profile true 0 st)
    as (r & -> & _).
  destruct (negb r.1); [by apply record_origin|].
  apply Hrest. by apply record_origin.
Qed.

Lemma submit_origin : sourced env userId data (submitOnboardingData env userId data).1.
Proof.
  assert (∀ st url, sourced env userId data st →
            sourced env userId data
              (let (st, uploaded) :=
                 upload_interest env userId (interestPhotos data) 0 [] st in
               match uploaded with
               | inr r => (st, r)
               | inl urls => save_photos env userId data url urls st
               end).1) as Hrest.
  { intros st url Hst.
    pose proof (upload_interest_origin (interestPhotos data) 0 [] st Hst) as H.
    destruct (upload_interest env userId (interestPhotos data) 0 [] st)
      as [st1 [urls|r]]; [|done].
    by apply save_photos_origin. }
  assert (sourced env userId data (mkState [] 0)) as Hinit by constructor.
  unfold submitOnboardingData.
  destruct (profilePhoto data) as [photo|]; [|by apply Hrest].
  cbn [generate]. rewrite uploadPhoto_run.
  destruct (truthy_opt _); [by apply record_origin|].
  apply Hrest. by apply record_origin.
Qed.

End Origin.


Lemma answers_for_elem userId questionnaire questionIds ans :
  ans ∈ answers_for userId questionnaire questionIds ↔
  ∃ i id, (i, a_answer_text ans) ∈ questionnaire ∧
          questionIds !! Z.of_N i = Some id ∧ id ≠ ""%string ∧
          ans = mkAnswer userId id (a_answer_text ans) None.
Proof.
  unfold answers_for. rewrite list_elem_of_omap. split.
  - intros ([i text] & Hin & Hf). cbn [fst snd] in Hf.
    destruct (questionIds !! Z.of_N i) as [id|] eqn:Hid; [|done].
    unfold truthy in Hf. destruct (String.eqb_spec id "") as [|Hne]; [done|].
    injection Hf as <-. by exists i, id.
  - intros (i & id & Hin & Hid & Hne & ->). exists (i, a_answer_text ans).
    split; [done|]. cbn [fst snd a_answer_text]. rewrite Hid. unfold truthy.
    by destruct (String.eqb_spec id "").
Qed.

Lemma order_indexes_elem (rows : list (string * option Z)) id o :
  (id, Some o) ∈ rows → o ∈ order_indexes rows.
Proof. intros Hin. apply list_elem_of_omap. by exists (id, Some o). Qed.

Lemma questionMap_lookup (rows : list (string * option Z)) (m : gmap Z string) k id :
  NoDup (order_indexes rows) →
  foldl (fun questionMap question =>
           match question.2 with
           | Some order_index => <[(order_index - 1)%Z := question.1]> questionMap
           | None => questionMap
           end) m rows !! k = Some id
  ↔ (id, Some (k + 1)%Z) ∈ rows ∨
    (m !! k = Some id ∧ (k + 1)%Z ∉ order_indexes rows).
Proof.
  revert m. induction rows as [|[qid [o|]] rest IH]; intros m Hnd.
  - cbn. rewrite elem_of_nil. split; [intros ?; right; split; [done|apply not_elem_of_nil]|].
    by intros [|[? _]].
  - cbn [order_indexes omap list_omap snd] in Hnd.
    apply NoDup_cons in Hnd as [Ho Hnd].
    cbn [foldl fst snd]. rewrite (IH _ Hnd).
    cbn [order_indexes omap list_omap snd]. fold (order_indexes rest).
    rewrite elem_of_cons, not_elem_of_cons.
    destruct (decide (k = (o - 1)%Z)) as [->|Hk].
    + rewrite lookup_insert_eq. replace (o - 1 + 1)%Z with o by lia. split.
      * intros [Hin|[[= ->] _]]; [by left; right|by left; left].
      * intros [[[= ->]|Hin]|[_ [Hne _]]]; [right|by left|done].
        by split.
    + rewrite lookup_insert_ne by done. split.
      * intros [Hin|[Hm Hn]]; [by left; right|right].
        split; [done|]. split; [lia|done].
      * intros [[[= -> Ho']|Hin]|[Hm [_ Hn]]]; [lia|by left|by right].
  - cbn [foldl fst snd]. rewrite (IH _ Hnd).
    cbn [order_indexes omap list_omap snd]. fold (order_indexes rest).
    rewrite elem_of_cons. split.
    + intros [Hin|H]; [by left; right|by right].
    + intros [[[=]|Hin]|H]; [by left|by right].
Qed.



(** With question rows of distinct order indexes, the rows written to
    [answers] are, in the order of the questionnaire, one row for each
    entry that has a question and none for the others: the row of an entry
    carries the user's id, the id of the question whose order index is the
    entry's index plus one (there is only one), and the entry's text. *)
Theorem answers_follow_order_index env userId data qrows rows :
  select_questions env = Questions (Some qrows) →
  NoDup (order_indexes qrows) →
  InsertAnswers rows ∈ log (submitOnboardingData env userId data).1 →
  Forall2 (fun entry ans =>
             ∃ id, (id, Some (Z.of_N entry.1 + 1)%Z) ∈ qrows ∧ id ≠ ""%string ∧
                   (∀ id', (id', Some (Z.of_N entry.1 + 1)%Z) ∈ qrows → id' = id) ∧
                   ans = mkAnswer userId id entry.2 None)
          (filter (asked qrows) (questionnaire data)) rows.
Proof.
  intros Hq Hnd Hin.
  pose proof (submit_origin env userId data) as Hall.
  unfold sourced in Hall. rewrite Forall_forall in Hall.
  specialize (Hall _ Hin) as [_ ->]. clear Hin.
  set (m := (getQuestionIds env (mkState [] 0)).2).
  assert (∀ k id, m !! k = Some id ↔ (id, Some (k + 1)%Z) ∈ qrows) as Hmap.
  { intros k id. subst m. unfold getQuestionIds. rewrite Hq. cbn [snd default].
    rewrite (questionMap_lookup qrows ∅ k id Hnd), lookup_empty.
    split; [by intros [?|[? _]]|by left]. }
  assert (∀ i text, asked qrows (i, text) →
            ∃ id, m !! Z.of_N i = Some id ∧ id ≠ ""%string) as Hasked.
  { intros i text ([id o] & Hrow & Ho & Hid)%Exists_exists. cbn [fst snd] in Ho, Hid.
    subst o. exists id. split; [by apply Hmap|done]. }
  induction (questionnaire data) as [|[i text] l IH]; [constructor|].
  unfold answers_for. cbn [omap list_omap fst snd]. fold (answers_for userId l m).
  rewrite filter_cons.
  destruct (m !! Z.of_N i) as [id|] eqn:E.
  - unfold truthy. destruct (String.eqb_spec id "") as [->|Hne]; cbn [negb].
    + rewrite decide_False; [exact IH|].
      intros (id' & Hid' & Hne')%Hasked. congruence.
    + rewrite decide_True.
      * constructor; [|exact IH]. exists id. cbn [fst snd].
        split; [by apply Hmap|]. split; [done|]. split; [|done].
        intros id' Hid'%Hmap. congruence.
      * apply Exists_exists. exists (id, Some (Z.of_N i + 1)%Z).
        split; [by apply Hmap|done].
  - rewrite decide_False; [exact IH|].
    intros (id' & Hid' & _)%Hasked. congruence.
Qed.

(** Two questions, two entries: two rows, in the order of the entries. *)
Lemma answers_follow_order_index_witness :
  Forall2 (fun entry ans =>
             ∃ id, (id, Some (Z.of_N entry.1 + 1)%Z)
                     ∈ [("q-1", Some 1%Z); ("q-2", Some 2%Z)] ∧
                   id ≠ ""%string ∧
                   (∀ id', (id', Some (Z.of_N entry.1 + 1)%Z)
                             ∈ [("q-1", Some 1%Z); ("q-2", Some 2%Z)] → id' = id) ∧
                   ans = mkAnswer "u-1" id entry.2 None)
          (filter (asked [("q-1", Some 1%Z); ("q-2", Some 2%Z)]) (questionnaire form))
          [mkAnswer "u-1" "q-1" "Adventure outdoors" None;
           mkAnswer "u-1" "q-2" "Deep conversations" None].
Proof.
  apply (answers_follow_order_index calm "u-1" form
           [("q-1", Some 1%Z); ("q-2", Some 2%Z)]
           [mkAnswer "u-1" "q-1" "Adventure outdoors" None;
            mkAnswer "u-1" "q-2" "Deep conversations" None]).
  - reflexivity.
  - apply (bool_decide_unpack _). vm_compute. exact I.
  - vm_compute. do 8 apply list_elem_of_further. apply list_elem_of_here.
Defined.

End SubmissionFacts.
